(** * Session and resilient-request layer of the Bria workflow frontend

    A shallow embedding of
      - [frontend/src/lib/api.ts]: the axios client, its request and
        response interceptors, [handleApiError], [processQueue],
        [isTokenExpired], the promise of a queued call;
      - [frontend/src/contexts/AuthContext.tsx]: [isTokenExpired],
        [getTokenExpiration], [scheduleTokenRefresh], [refreshToken],
        [logout], [login], [register], [initializeAuth], the timeout
        callback and the clean-up of the provider;
      - [frontend/src/utils/error-handling.ts]: [isNetworkError],
        [isTimeoutError], [getErrorMessage], [shouldRetryError],
        [getRetryDelay], [retryAsync];
    together with the part of the browser platform those functions call
    ([String.prototype.split], [atob], [JSON.parse], number coercion,
    [localStorage], [setTimeout]/[clearTimeout]).

    Conventions.
      - A JavaScript number is [NaN], an infinity or an exact rational:
        binary64 rounding and overflow are outside the model.
      - [Date.now()] is an argument [now : Z] (milliseconds) of every
        function that reads the clock; [Math.random()] is an argument too.
      - Asynchronous code is cut at its [await]s: every handler is a
        function from the state before it runs to the state after it, and
        the list of effects it performed, in program order. *)

From Stdlib Require Import ZArith QArith Qminmax Qpower Lqa String Ascii List Lia Bool.
From stdpp Require Import gmap strings list.

Open Scope string_scope.
Open Scope list_scope.

(* ===================================================================== *)
(** * The platform *)
(* ===================================================================== *)

Module JS.

(** ** Numbers *)

Inductive number : Type :=
| NaN
| NegInf
| Fin (q : Q)
| PosInf.

Definition Qltb (a b : Q) : bool := negb (Qle_bool b a).

(** [a < b]; false as soon as one side is NaN. *)
Definition num_lt (a b : number) : bool :=
  match a, b with
  | NaN, _ | _, NaN => false
  | PosInf, _ => false
  | _, NegInf => false
  | NegInf, _ => true
  | _, PosInf => true
  | Fin x, Fin y => Qltb x y
  end.

Definition num_gt (a b : number) : bool := num_lt b a.

Definition num_neg (a : number) : number :=
  match a with
  | NaN => NaN
  | NegInf => PosInf
  | PosInf => NegInf
  | Fin x => Fin (- x)
  end.

Definition num_add (a b : number) : number :=
  match a, b with
  | NaN, _ | _, NaN => NaN
  | PosInf, NegInf | NegInf, PosInf => NaN
  | PosInf, _ | _, PosInf => PosInf
  | NegInf, _ | _, NegInf => NegInf
  | Fin x, Fin y => Fin (x + y)
  end.

Definition num_sub (a b : number) : number := num_add a (num_neg b).

Definition Qsign (x : Q) : comparison := (Qnum x ?= 0)%Z.

Definition num_mul (a b : number) : number :=
  match a, b with
  | NaN, _ | _, NaN => NaN
  | Fin x, Fin y => Fin (x * y)
  | Fin x, PosInf | PosInf, Fin x =>
      match Qsign x with Eq => NaN | Lt => NegInf | Gt => PosInf end
  | Fin x, NegInf | NegInf, Fin x =>
      match Qsign x with Eq => NaN | Lt => PosInf | Gt => NegInf end
  | PosInf, PosInf | NegInf, NegInf => PosInf
  | PosInf, NegInf | NegInf, PosInf => NegInf
  end.

Definition num_div (a : number) (d : Q) : number :=
  num_mul a (Fin (/ d)).

(** [Math.max(a, b)]: NaN if either argument is. *)
Definition Math_max (a b : number) : number :=
  match a, b with
  | NaN, _ | _, NaN => NaN
  | _, _ => if num_lt a b then b else a
  end.

(** [Math.min(a, b)]. *)
Definition Math_min (a b : number) : number :=
  match a, b with
  | NaN, _ | _, NaN => NaN
  | _, _ => if num_lt b a then b else a
  end.

(** Truthiness of a number: [NaN] and zero are falsy. *)
Definition num_truthy (a : number) : bool :=
  match a with
  | NaN => false
  | Fin x => negb (Qeq_bool x 0)
  | _ => true
  end.

Definition of_Z (z : Z) : number := Fin (inject_Z z).

(** ** Strings

    Text that reaches [atob] and [JSON.parse] is a binary string, one
    byte per character, so it is a [string]. String values inside parsed
    JSON may hold any UTF-16 code unit (through a [\u] escape) and are
    lists of code units. *)

Definition jsstring : Type := list N.

Definition char_code (c : ascii) : N := N_of_ascii c.

Definition js (s : string) : jsstring := map char_code (list_ascii_of_string s).

(** [s.split('.')] *)
Fixpoint split_on (sep : ascii) (cur : list ascii) (cs : list ascii) : list string :=
  match cs with
  | [] => [string_of_list_ascii (rev cur)]
  | c :: cs' =>
      if Ascii.eqb c sep
      then string_of_list_ascii (rev cur) :: split_on sep [] cs'
      else split_on sep (c :: cur) cs'
  end.

Definition split (s : string) (sep : ascii) : list string :=
  split_on sep [] (list_ascii_of_string s).

(** [String(v)] for an array element that may be [undefined]. *)
Definition ToString_opt (v : option string) : string :=
  match v with
  | Some s => s
  | None => "undefined"
  end.

(** ** [atob]: forgiving base64 decoding (HTML standard) *)

Definition is_ascii_whitespace (c : ascii) : bool :=
  let n := char_code c in
  (n =? 9)%N || (n =? 10)%N || (n =? 12)%N || (n =? 13)%N || (n =? 32)%N.

(** Value of a character of the base64 alphabet [A-Za-z0-9+/]. *)
Definition base64_value (c : ascii) : option N :=
  let n := char_code c in
  if (65 <=? n)%N && (n <=? 90)%N then Some (n - 65)%N
  else if (97 <=? n)%N && (n <=? 122)%N then Some (n - 71)%N
  else if (48 <=? n)%N && (n <=? 57)%N then Some (n + 4)%N
  else if (n =? 43)%N then Some 62%N
  else if (n =? 47)%N then Some 63%N
  else None.

(** The values of a text over the alphabet [value]. *)
Fixpoint sextets (value : ascii -> option N) (cs : list ascii) : option (list N) :=
  match cs with
  | [] => Some []
  | c :: cs' =>
      match value c, sextets value cs' with
      | Some v, Some vs => Some (v :: vs)
      | _, _ => None
      end
  end.

Definition byte (n : N) : ascii := ascii_of_N (n mod 256).

Fixpoint decode_sextets (l : list N) : list ascii :=
  match l with
  | a :: b :: c :: d :: rest =>
      byte (N.lor (N.shiftl a 2) (N.shiftr b 4))
      :: byte (N.lor (N.shiftl (N.land b 15) 4) (N.shiftr c 2))
      :: byte (N.lor (N.shiftl (N.land c 3) 6) d)
      :: decode_sextets rest
  | [a; b; c] =>
      [byte (N.lor (N.shiftl a 2) (N.shiftr b 4));
       byte (N.lor (N.shiftl (N.land b 15) 4) (N.shiftr c 2))]
  | [a; b] => [byte (N.lor (N.shiftl a 2) (N.shiftr b 4))]
  | _ => []
  end.

(** Drops one or two trailing [=] signs. *)
Definition strip_padding (cs : list ascii) : list ascii :=
  match rev cs with
  | "="%char :: "="%char :: r => rev r
  | "="%char :: r => rev r
  | _ => cs
  end.

(** [atob(data)]; [None] when it throws [InvalidCharacterError]. *)
Definition atob (data : string) : option string :=
  let cs := List.filter (fun c => negb (is_ascii_whitespace c)) (list_ascii_of_string data) in
  let cs := if (length cs mod 4 =? 0)%nat then strip_padding cs else cs in
  if (length cs mod 4 =? 1)%nat then None
  else match sextets base64_value cs with
       | Some vs => Some (string_of_list_ascii (decode_sextets vs))
       | None => None
       end.

(** ** JSON values *)

#[warnings="-register-all"]
Inductive JsValue : Type :=
| JUndefined
| JNull
| JBool (b : bool)
| JNum (q : Q)
| JStr (s : jsstring)
| JArr (elems : list JsValue)
| JObj (members : list (jsstring * JsValue)).

(** ** [JSON.parse]: the lexer *)

Inductive token : Type :=
| TLBrace | TRBrace | TLBracket | TRBracket | TComma | TColon
| TScalar (v : JsValue).

Definition is_json_whitespace (c : ascii) : bool :=
  let n := char_code c in
  (n =? 9)%N || (n =? 10)%N || (n =? 13)%N || (n =? 32)%N.

Definition is_digit (c : ascii) : bool :=
  let n := char_code c in (48 <=? n)%N && (n <=? 57)%N.

Definition digit_value (c : ascii) : Z := Z.of_N (char_code c) - 48.

Definition hex_value (c : ascii) : option N :=
  let n := char_code c in
  if (48 <=? n)%N && (n <=? 57)%N then Some (n - 48)%N
  else if (65 <=? n)%N && (n <=? 70)%N then Some (n - 55)%N
  else if (97 <=? n)%N && (n <=? 102)%N then Some (n - 87)%N
  else None.

Definition is_lower (c : ascii) : bool :=
  let n := char_code c in (97 <=? n)%N && (n <=? 122)%N.

(** Characters that can occur inside a JSON number. *)
Definition is_number_char (c : ascii) : bool :=
  is_digit c || Ascii.eqb c "-" || Ascii.eqb c "+" || Ascii.eqb c "."
  || Ascii.eqb c "e" || Ascii.eqb c "E".

Fixpoint take_digits (cs : list ascii) : list ascii * list ascii :=
  match cs with
  | c :: cs' =>
      if is_digit c
      then let (ds, rest) := take_digits cs' in (c :: ds, rest)
      else ([], cs)
  | [] => ([], [])
  end.

Definition digits_to_Z (ds : list ascii) : Z :=
  fold_left (fun acc c => acc * 10 + digit_value c)%Z ds 0%Z.

(** [m * 10^e] as a rational. *)
Definition scale10 (m e : Z) : Q :=
  Qred (inject_Z m * Qpower (10 # 1) e).

(** The text after the digits of a fraction: nothing, or an exponent
    [e], [E] with an optional sign and at least one digit. *)
Definition exponent_part (cs : list ascii) : option Z :=
  match cs with
  | [] => Some 0%Z
  | c :: r =>
      if Ascii.eqb c "e" || Ascii.eqb c "E" then
        let '(negative, r1) :=
          match r with
          | "+"%char :: r' => (false, r')
          | "-"%char :: r' => (true, r')
          | _ => (false, r)
          end in
        match take_digits r1 with
        | (d :: ds, []) =>
            let e := digits_to_Z (d :: ds) in
            Some (if negative then (- e)%Z else e)
        | _ => None
        end
      else None
  end.

(** An optional [.] and the digits after it: the digits, the rest of
    the text, and whether there was a dot. *)
Definition fraction_part (cs : list ascii) : list ascii * list ascii * bool :=
  match cs with
  | "."%char :: r => let (ds, r') := take_digits r in (ds, r', true)
  | _ => ([], cs, false)
  end.

(** A JSON number: an optional minus sign, an integer part without
    superfluous leading zero, an optional fraction with at least one
    digit, an optional exponent. *)
Definition parse_json_number (cs : list ascii) : option Q :=
  let '(negative, cs1) :=
    match cs with
    | "-"%char :: r => (true, r)
    | _ => (false, cs)
    end in
  let (ip, cs2) := take_digits cs1 in
  let '(fs, cs3, dot) := fraction_part cs2 in
  match ip with
  | [] => None
  | d :: ds =>
      if Ascii.eqb d "0" && negb (length ds =? 0)%nat then None
      else if dot && (length fs =? 0)%nat then None
      else
        match exponent_part cs3 with
        | Some e =>
            let m := digits_to_Z (ip ++ fs) in
            Some (scale10 (if negative then (- m)%Z else m) (e - Z.of_nat (length fs)))
        | None => None
        end
  end.

Definition parse_json_word (cs : list ascii) : option JsValue :=
  let w := string_of_list_ascii cs in
  if String.eqb w "true" then Some (JBool true)
  else if String.eqb w "false" then Some (JBool false)
  else if String.eqb w "null" then Some JNull
  else None.

Inductive lexmode : Type :=
| LIdle
| LStr (acc : list N)
| LEsc (acc : list N)
| LUni (acc : list N) (have : nat) (value : N)
| LNum (acc : list ascii)
| LWord (acc : list ascii).

(** One character read in idle mode: the next mode and the token it
    completes, if any. *)
Definition idle_step (c : ascii) : option (lexmode * list token) :=
  if is_json_whitespace c then Some (LIdle, [])
  else if Ascii.eqb c "{" then Some (LIdle, [TLBrace])
  else if Ascii.eqb c "}" then Some (LIdle, [TRBrace])
  else if Ascii.eqb c "[" then Some (LIdle, [TLBracket])
  else if Ascii.eqb c "]" then Some (LIdle, [TRBracket])
  else if Ascii.eqb c "," then Some (LIdle, [TComma])
  else if Ascii.eqb c ":" then Some (LIdle, [TColon])
  else if (char_code c =? 34)%N then Some (LStr [], [])
  else if is_digit c || Ascii.eqb c "-" then Some (LNum [c], [])
  else if is_lower c then Some (LWord [c], [])
  else None.

Definition escape_value (c : ascii) : option N :=
  let n := char_code c in
  if (n =? 34)%N then Some 34%N
  else if Ascii.eqb c "\" then Some 92%N
  else if Ascii.eqb c "/" then Some 47%N
  else if Ascii.eqb c "b" then Some 8%N
  else if Ascii.eqb c "f" then Some 12%N
  else if Ascii.eqb c "n" then Some 10%N
  else if Ascii.eqb c "r" then Some 13%N
  else if Ascii.eqb c "t" then Some 9%N
  else None.

(** The lexer reads the text left to right; [out] holds the tokens read
    so far, last first. *)
Fixpoint lex (m : lexmode) (out : list token) (cs : list ascii) : option (list token) :=
  match cs with
  | [] =>
      match m with
      | LIdle => Some (rev out)
      | LNum acc =>
          match parse_json_number (rev acc) with
          | Some q => Some (rev (TScalar (JNum q) :: out))
          | None => None
          end
      | LWord acc =>
          match parse_json_word (rev acc) with
          | Some v => Some (rev (TScalar v :: out))
          | None => None
          end
      | _ => None
      end
  | c :: cs' =>
      match m with
      | LIdle =>
          match idle_step c with
          | Some (m', ts) => lex m' (ts ++ out) cs'
          | None => None
          end
      | LStr acc =>
          if (char_code c =? 34)%N then lex LIdle (TScalar (JStr (rev acc)) :: out) cs'
          else if Ascii.eqb c "\" then lex (LEsc acc) out cs'
          else if (char_code c <? 32)%N then None
          else lex (LStr (char_code c :: acc)) out cs'
      | LEsc acc =>
          if Ascii.eqb c "u" then lex (LUni acc 0 0%N) out cs'
          else match escape_value c with
               | Some n => lex (LStr (n :: acc)) out cs'
               | None => None
               end
      | LUni acc have value =>
          match hex_value c with
          | Some h =>
              let value' := (value * 16 + h)%N in
              if (have =? 3)%nat then lex (LStr (value' :: acc)) out cs'
              else lex (LUni acc (S have) value') out cs'
          | None => None
          end
      | LNum acc =>
          if is_number_char c then lex (LNum (c :: acc)) out cs'
          else
            match parse_json_number (rev acc), idle_step c with
            | Some q, Some (m', ts) => lex m' (ts ++ TScalar (JNum q) :: out) cs'
            | _, _ => None
            end
      | LWord acc =>
          if is_lower c then lex (LWord (c :: acc)) out cs'
          else
            match parse_json_word (rev acc), idle_step c with
            | Some v, Some (m', ts) => lex m' (ts ++ TScalar v :: out) cs'
            | _, _ => None
            end
      end
  end.

(** ** [JSON.parse]: the parser *)

Inductive frame : Type :=
| FArr (done : list JsValue)
| FObj (done : list (jsstring * JsValue)) (key : option jsstring).

Inductive expect : Type :=
| EValue | EValueOrClose | EKeyOrClose | EKey | EColon | ECommaOrClose | EEnd.

Record pstate : Type := PState {
  p_expect : expect;
  p_stack : list frame;
  p_result : option JsValue
}.

(** A value is complete: it is the result, or goes into the open
    container. *)
Definition complete (v : JsValue) (stk : list frame) : option pstate :=
  match stk with
  | [] => Some (PState EEnd [] (Some v))
  | FArr es :: stk' => Some (PState ECommaOrClose (FArr (v :: es) :: stk') None)
  | FObj ms (Some k) :: stk' =>
      Some (PState ECommaOrClose (FObj ((k, v) :: ms) None :: stk') None)
  | FObj _ None :: _ => None
  end.

Definition value_step (t : token) (stk : list frame) : option pstate :=
  match t with
  | TScalar v => complete v stk
  | TLBracket => Some (PState EValueOrClose (FArr [] :: stk) None)
  | TLBrace => Some (PState EKeyOrClose (FObj [] None :: stk) None)
  | _ => None
  end.

Definition key_step (t : token) (stk : list frame) : option pstate :=
  match t, stk with
  | TScalar (JStr k), FObj ms None :: stk' =>
      Some (PState EColon (FObj ms (Some k) :: stk') None)
  | _, _ => None
  end.

Definition close_step (t : token) (stk : list frame) : option pstate :=
  match t, stk with
  | TRBracket, FArr es :: stk' => complete (JArr (rev es)) stk'
  | TRBrace, FObj ms None :: stk' => complete (JObj (rev ms)) stk'
  | _, _ => None
  end.

Definition parse_step (st : pstate) (t : token) : option pstate :=
  let stk := p_stack st in
  match p_expect st with
  | EValue => value_step t stk
  | EValueOrClose =>
      match t with
      | TRBracket => close_step t stk
      | _ => value_step t stk
      end
  | EKeyOrClose =>
      match t with
      | TRBrace => close_step t stk
      | _ => key_step t stk
      end
  | EKey => key_step t stk
  | EColon =>
      match t with
      | TColon => Some (PState EValue stk None)
      | _ => None
      end
  | ECommaOrClose =>
      match t, stk with
      | TComma, FArr _ :: _ => Some (PState EValue stk None)
      | TComma, FObj _ _ :: _ => Some (PState EKey stk None)
      | _, _ => close_step t stk
      end
  | EEnd => None
  end.

Fixpoint parse_tokens (st : pstate) (ts : list token) : option JsValue :=
  match ts with
  | [] => match p_expect st with EEnd => p_result st | _ => None end
  | t :: ts' =>
      match parse_step st t with
      | Some st' => parse_tokens st' ts'
      | None => None
      end
  end.

(** [JSON.parse(text)]; [None] when it throws [SyntaxError]. *)
Definition JSON_parse (text : string) : option JsValue :=
  match lex LIdle [] (list_ascii_of_string text) with
  | Some ts => parse_tokens (PState EValue [] None) ts
  | None => None
  end.

(** ** Coercion to a number *)

(** White space and line terminators that [StringToNumber] trims. *)
Definition is_str_whitespace (n : N) : bool :=
  ((9 <=? n) && (n <=? 13) || (n =? 32) || (n =? 160) || (n =? 5760)
   || (8192 <=? n) && (n <=? 8202) || (n =? 8232) || (n =? 8233)
   || (n =? 8239) || (n =? 8287) || (n =? 12288) || (n =? 65279))%N.

Fixpoint drop_whitespace (s : jsstring) : jsstring :=
  match s with
  | n :: s' => if is_str_whitespace n then drop_whitespace s' else s
  | [] => []
  end.

Definition trim (s : jsstring) : jsstring :=
  rev (drop_whitespace (rev (drop_whitespace s))).

(** The characters of a string whose code units all fit in a byte. *)
Fixpoint to_chars (s : jsstring) : option (list ascii) :=
  match s with
  | [] => Some []
  | n :: s' =>
      match to_chars s' with
      | Some cs => if (n <? 256)%N then Some (ascii_of_N n :: cs) else None
      | None => None
      end
  end.

(** Digits in base [2], [8] or [16], at least one. *)
Fixpoint radix_digits (radix : N) (acc : N) (cs : list ascii) : option N :=
  match cs with
  | [] => Some acc
  | c :: cs' =>
      match hex_value c with
      | Some h => if (h <? radix)%N then radix_digits radix (acc * radix + h)%N cs' else None
      | None => None
      end
  end.

Definition parse_radix (radix : N) (cs : list ascii) : number :=
  match cs with
  | [] => NaN
  | _ =>
      match radix_digits radix 0 cs with
      | Some n => Fin (inject_Z (Z.of_N n))
      | None => NaN
      end
  end.

(** An unsigned decimal literal: [Infinity], or digits with an optional
    fraction and exponent, with a digit before or after the dot. *)
Definition parse_unsigned_decimal (cs : list ascii) : number :=
  if String.eqb (string_of_list_ascii cs) "Infinity" then PosInf
  else
    let (ip, cs1) := take_digits cs in
    let '(fs, cs2, _) := fraction_part cs1 in
    if (length ip =? 0)%nat && (length fs =? 0)%nat then NaN
    else
      match exponent_part cs2 with
      | Some e => Fin (scale10 (digits_to_Z (ip ++ fs)) (e - Z.of_nat (length fs)))
      | None => NaN
      end.

(** [StringToNumber]: the number a string converts to. *)
Definition StringToNumber (s : jsstring) : number :=
  match to_chars (trim s) with
  | None => NaN
  | Some [] => Fin 0
  | Some (c :: cs) =>
      match c, cs with
      | "+"%char, _ => parse_unsigned_decimal cs
      | "-"%char, _ => num_neg (parse_unsigned_decimal cs)
      | "0"%char, c' :: cs' =>
          if Ascii.eqb c' "x" || Ascii.eqb c' "X" then parse_radix 16 cs'
          else if Ascii.eqb c' "o" || Ascii.eqb c' "O" then parse_radix 8 cs'
          else if Ascii.eqb c' "b" || Ascii.eqb c' "B" then parse_radix 2 cs'
          else parse_unsigned_decimal (c :: cs)
      | _, _ => parse_unsigned_decimal (c :: cs)
      end
  end.

(** [ToNumber(v)]. An array converts through its [toString]: the empty
    array gives the empty string, a one-element array the string of its
    element, and a longer one a text with a comma in it, which is not a
    number. *)
Fixpoint ToNumber (v : JsValue) : number :=
  match v with
  | JUndefined => NaN
  | JNull => Fin 0
  | JBool b => if b then Fin 1 else Fin 0
  | JNum q => Fin q
  | JStr s => StringToNumber s
  | JObj _ => NaN
  | JArr [] => Fin 0
  | JArr [x] =>
      match x with
      | JUndefined | JNull => Fin 0
      | JBool _ | JObj _ => NaN
      | _ => ToNumber x
      end
  | JArr _ => NaN
  end.

(** ** Property access *)

Fixpoint last_member (k : jsstring) (ms : list (jsstring * JsValue)) (found : JsValue) : JsValue :=
  match ms with
  | [] => found
  | (k', v) :: ms' =>
      last_member k ms' (if decide (k' = k) then v else found)
  end.

(** [v.exp]; [None] when the access throws [TypeError]. Only an object
    can own the property; a later duplicate key overrides an earlier one. *)
Definition get_exp (v : JsValue) : option JsValue :=
  match v with
  | JUndefined | JNull => None
  | JObj ms => Some (last_member (js "exp") ms JUndefined)
  | _ => Some JUndefined
  end.

End JS.

(* ===================================================================== *)
(** * axios: requests and errors *)
(* ===================================================================== *)

Module Axios.

(** A request configuration. [_retry] is the mark the response
    interceptor puts on a request it has replayed; an absent mark reads
    as [false]. *)
Record Request : Type := {
  url : string;
  Authorization : option string;
  _retry : bool
}.

Definition set_Authorization (h : string) (r : Request) : Request :=
  {| url := url r; Authorization := Some h; _retry := _retry r |}.

Definition set_retry (b : bool) (r : Request) : Request :=
  {| url := url r; Authorization := Authorization r; _retry := b |}.

Record Response : Type := { status : Z }.

(** An [AxiosError]: [response] is absent when no response was received. *)
Record AxiosError : Type := {
  response : option Response;
  code : option string;
  message : string;
  name : string;
  config : Request
}.

(** What a [catch] clause can receive. *)
Inductive exn : Type :=
| AxiosExn (e : AxiosError)
| ErrorExn (msg : string)
| TypeErrorExn.

End Axios.

(* ===================================================================== *)
(** * lib/api.ts *)
(* ===================================================================== *)

Module Api.
Import JS Axios.

(** What the handlers do to the outside world, in program order. The
    reactions of the promises a handler settles run once the handler has
    returned; a log lists them behind the handler's own effects, in the
    order in which the promises were settled. *)
Inductive Effect : Type :=
| DispatchEvent (type : string) (context : option string)
    (* window.dispatchEvent(new CustomEvent(type, ...)) *)
| PushQueue (r : Request)
    (* failedQueue.push({ resolve, reject }): the call for [r] suspends *)
| Resolve (r : Request) (token : option string)
    (* resolve(token) of the entry queued for [r] *)
| Reject (r : Request) (e : exn)
    (* reject(error) of the entry queued for [r] *)
| SetRefreshing (b : bool)
    (* isRefreshing = b *)
| RefreshPost (authorization : string)
    (* axios.post(`${API_BASE_URL}/auth/refresh`, {}, { headers }) *)
| Send (r : Request)
    (* apiClient(originalRequest): [r] as it leaves the request interceptor *)
| SetItem (key value : string)
| RemoveItem (key : string)
| Rethrow (r : Request) (e : exn).
    (* the promise returned for the call [r] rejects with [e] *)

(** [handleApiError]: publishes [api:error]; the caller gets
    [Promise.reject(error)]. *)
Definition handleApiError (r : Request) (error : exn) (context : option string)
  : list Effect :=
  [DispatchEvent "api:error" context; Rethrow r error].

(** An entry of [failedQueue] is the pair of callbacks of the promise a
    suspended call waits on; it is identified with the request of that
    call. *)
Definition processQueue (error : option exn) (token : option string)
  (failedQueue : list Request) : list Effect * list Request :=
  (map (fun entry =>
          match error with
          | Some e => Reject entry e
          | None => Resolve entry token
          end) failedQueue,
   []).

Definition isTokenExpired (now : Z) (token : string) : bool :=
  default true (
    payload ← atob (ToString_opt (split token "." !! 1%nat)) ≫= JSON_parse;
    let currentTime := num_div (of_Z now) 1000 in
    exp ← get_exp payload;
    Some (num_lt (ToNumber exp) (num_add currentTime (Fin 30)))).

(** Truthiness of a string read from [localStorage]. *)
Definition truthy (s : option string) : bool :=
  match s with
  | Some s => negb (String.eqb s "")
  | None => false
  end.

(** The request interceptor. *)
Definition requestInterceptor (now : Z) (localStorage : gmap string string)
  (config : Request) : Request :=
  let token := localStorage !! "token" in
  if truthy token && negb (isTokenExpired now (default "" token))
  then set_Authorization ("Bearer " +:+ default "" token) config
  else config.

(** Body of a successful answer of the refresh endpoint. *)
Record RefreshData : Type := {
  access_token : string;
  user : JsValue
}.

(** How the awaited [axios.post] ends: with a response, whose [data] may
    be missing, or with an error. *)
Inductive RefreshOutcome : Type :=
| Fulfilled (data : option RefreshData)
| Rejected (e : AxiosError).

(** Module state: the two module-level variables, the store, and the
    handlers suspended at [await axios.post(...)], one for each refresh
    request that is outstanding, oldest first. *)
Record State : Type := {
  isRefreshing : bool;
  failedQueue : list Request;
  localStorage : gmap string string;
  awaiting : list Request
}.

Definition initial (ls : gmap string string) : State :=
  {| isRefreshing := false; failedQueue := []; localStorage := ls; awaiting := [] |}.

Section Interceptor.

(** [JSON.stringify], as a string. *)
Variable JSON_stringify : JsValue -> string.

(** The reaction of a queued call to the settlement of its promise: the
    [then] and [catch] callbacks chained on it. A failure of the replay
    itself is a later event. *)
Definition queued_reaction (now : Z) (ls : gmap string string) (settled : Effect)
  : list Effect :=
  match settled with
  | Resolve originalRequest token =>
      let bearer := "Bearer " +:+ match token with Some t => t | None => "null" end in
      [Send (requestInterceptor now ls (set_Authorization bearer originalRequest))]
  | Reject originalRequest err =>
      handleApiError originalRequest err (Some "Token refresh failed")
  | _ => []
  end.

(** The [catch] and [finally] clauses of the refresh, then the reactions
    of the queued calls. [finally] runs after [handleApiError] has
    published its event and before the handler's promise rejects. *)
Definition refresh_failed (now : Z) (originalRequest : Request) (refreshError : exn)
  (st : State) : State * list Effect :=
  let (settled, queue') := processQueue (Some refreshError) None (failedQueue st) in
  let ls := delete "user" (delete "token" (localStorage st)) in
  ({| isRefreshing := false; failedQueue := queue'; localStorage := ls;
      awaiting := awaiting st |},
   settled
   ++ [RemoveItem "token"; RemoveItem "user"; DispatchEvent "auth:logout" None]
   ++ [DispatchEvent "api:error" (Some "Authentication failed")]
   ++ [SetRefreshing false; Rethrow originalRequest refreshError]
   ++ flat_map (queued_reaction now ls) settled).

(** The rest of the [try] block once the refresh endpoint has answered
    with [data], the [finally] clause, then the reactions of the queued
    calls. The replay is returned without [await]: its failure is not
    caught here, it comes back as a later [ResponseError]. *)
Definition refresh_succeeded (now : Z) (originalRequest : Request) (data : RefreshData)
  (st : State) : State * list Effect :=
  let ls := <["user" := JSON_stringify (user data)]>
              (<["token" := access_token data]> (localStorage st)) in
  let originalRequest :=
    set_Authorization ("Bearer " +:+ access_token data) originalRequest in
  let (settled, queue') := processQueue None (Some (access_token data)) (failedQueue st) in
  ({| isRefreshing := false; failedQueue := queue'; localStorage := ls;
      awaiting := awaiting st |},
   [SetItem "token" (access_token data); SetItem "user" (JSON_stringify (user data))]
   ++ settled
   ++ [Send (requestInterceptor now ls originalRequest); SetRefreshing false]
   ++ flat_map (queued_reaction now ls) settled).

(** The rejection handler of the response interceptor, up to its
    [await]. *)
Definition onRejected (now : Z) (error : AxiosError) (st : State)
  : State * list Effect :=
  let originalRequest := config error in
  match response error with
  | None =>
      (st,
       DispatchEvent "network:error" (Some "Network connection failed")
       :: handleApiError originalRequest (AxiosExn error) (Some "Network connection failed"))
  | Some resp =>
      if (status resp =? 401)%Z && negb (_retry originalRequest) then
        if isRefreshing st then
          ({| isRefreshing := isRefreshing st;
              failedQueue := failedQueue st ++ [originalRequest];
              localStorage := localStorage st;
              awaiting := awaiting st |},
           [PushQueue originalRequest])
        else
          let originalRequest := set_retry true originalRequest in
          let currentToken := localStorage st !! "token" in
          if truthy currentToken then
            ({| isRefreshing := true; failedQueue := failedQueue st;
                localStorage := localStorage st;
                awaiting := awaiting st ++ [originalRequest] |},
             [SetRefreshing true; RefreshPost ("Bearer " +:+ default "" currentToken)])
          else
            let (st', effs) :=
              refresh_failed now originalRequest (ErrorExn "No token available")
                {| isRefreshing := true; failedQueue := failedQueue st;
                   localStorage := localStorage st; awaiting := awaiting st |} in
            (st', SetRefreshing true :: effs)
      else (st, handleApiError originalRequest (AxiosExn error) None)
  end.

(** The same handler from its [await] on: the refresh request of the
    [k]-th suspended handler has ended with [outcome]. *)
Definition onRefreshSettled (now : Z) (k : nat) (outcome : RefreshOutcome) (st : State)
  : State * list Effect :=
  match awaiting st !! k with
  | None => (st, [])
  | Some originalRequest =>
      let st1 := {| isRefreshing := isRefreshing st; failedQueue := failedQueue st;
                    localStorage := localStorage st;
                    awaiting := delete k (awaiting st) |} in
      match outcome with
      | Fulfilled (Some data) => refresh_succeeded now originalRequest data st1
      | Fulfilled None => refresh_failed now originalRequest TypeErrorExn st1
      | Rejected e => refresh_failed now originalRequest (AxiosExn e) st1
      end
  end.

(** What can happen to the module between two of its suspension points. *)
Inductive Event : Type :=
| ResponseError (now : Z) (error : AxiosError)
    (* a call failed: the response interceptor's rejection handler runs *)
| RefreshSettled (now : Z) (k : nat) (outcome : RefreshOutcome)
    (* the refresh request of the k-th suspended handler has ended *)
| StorageSet (key value : string)
| StorageRemove (key : string).
    (* another module writes localStorage *)

Definition with_storage (ls : gmap string string) (st : State) : State :=
  {| isRefreshing := isRefreshing st; failedQueue := failedQueue st;
     localStorage := ls; awaiting := awaiting st |}.

Definition step (st : State) (ev : Event) : State * list Effect :=
  match ev with
  | ResponseError now error => onRejected now error st
  | RefreshSettled now k outcome => onRefreshSettled now k outcome st
  | StorageSet key value => (with_storage (<[key := value]> (localStorage st)) st, [])
  | StorageRemove key => (with_storage (delete key (localStorage st)) st, [])
  end.

(** A run: the state it ends in and everything it did. *)
Fixpoint run (st : State) (evs : list Event) : State * list Effect :=
  match evs with
  | [] => (st, [])
  | ev :: evs' =>
      let (st1, effs1) := step st ev in
      let (st2, effs2) := run st1 evs' in
      (st2, effs1 ++ effs2)
  end.

End Interceptor.

End Api.

(* ===================================================================== *)
(** * contexts/AuthContext.tsx *)
(* ===================================================================== *)

Module AuthContext.
Import JS.

Definition isTokenExpired (now : Z) (token : string) : bool :=
  default true (
    payload ← atob (ToString_opt (split token "." !! 1%nat)) ≫= JSON_parse;
    let currentTime := num_div (of_Z now) 1000 in
    exp ← get_exp payload;
    Some (num_lt (ToNumber exp) (num_add currentTime (Fin 30)))).

(** [None] is [null]. *)
Definition getTokenExpiration (token : string) : option number :=
  payload ← atob (ToString_opt (split token "." !! 1%nat)) ≫= JSON_parse;
  exp ← get_exp payload;
  Some (num_mul (ToNumber exp) (Fin 1000)).

Inductive Effect : Type :=
| Navigate (path : string)
| CallRefresh                       (* authAPI.refresh() *)
| ConsoleError (msg : string)
| ClearTimeout (handle : positive)
| SetTimeout (handle : positive) (delay : number).

(** The provider's state: its three React states, the timer reference,
    the store, and the platform's table of pending timeouts. A timeout
    handle is a positive integer, so a handle is always truthy. Every
    timeout of this component runs [refreshToken()]; the table keeps the
    delay it was armed with. *)
Record State : Type := {
  user : JsValue;
  token : option string;
  isLoading : bool;
  refreshTimeoutRef : option positive;
  localStorage : gmap string string;
  timers : gmap positive number;
  next_handle : positive
}.

Definition truthy (s : option string) : bool :=
  match s with
  | Some s => negb (String.eqb s "")
  | None => false
  end.

(** [!!v] *)
Definition ToBoolean (v : JsValue) : bool :=
  match v with
  | JUndefined | JNull => false
  | JBool b => b
  | JNum q => negb (Qeq_bool q 0)
  | JStr s => negb (length s =? 0)%nat
  | JArr _ | JObj _ => true
  end.

Definition clearTimeout (h : positive) (st : State) : State :=
  {| user := user st; token := token st; isLoading := isLoading st;
     refreshTimeoutRef := refreshTimeoutRef st; localStorage := localStorage st;
     timers := delete h (timers st); next_handle := next_handle st |}.

Definition setTimeout (delay : number) (st : State) : positive * State :=
  (next_handle st,
   {| user := user st; token := token st; isLoading := isLoading st;
      refreshTimeoutRef := refreshTimeoutRef st; localStorage := localStorage st;
      timers := <[next_handle st := delay]> (timers st);
      next_handle := Pos.succ (next_handle st) |}).

Definition set_ref (r : option positive) (st : State) : State :=
  {| user := user st; token := token st; isLoading := isLoading st;
     refreshTimeoutRef := r; localStorage := localStorage st;
     timers := timers st; next_handle := next_handle st |}.

Definition set_session (t : option string) (u : JsValue) (ls : gmap string string)
  (st : State) : State :=
  {| user := u; token := t; isLoading := isLoading st;
     refreshTimeoutRef := refreshTimeoutRef st; localStorage := ls;
     timers := timers st; next_handle := next_handle st |}.

Definition set_storage (ls : gmap string string) (st : State) : State :=
  set_session (token st) (user st) ls st.

Definition setIsLoading (b : bool) (st : State) : State :=
  {| user := user st; token := token st; isLoading := b;
     refreshTimeoutRef := refreshTimeoutRef st; localStorage := localStorage st;
     timers := timers st; next_handle := next_handle st |}.

Definition logout (st : State) : State * list Effect :=
  let (st1, effs) :=
    match refreshTimeoutRef st with
    | Some h => (set_ref None (clearTimeout h st), [ClearTimeout h])
    | None => (st, [])
    end in
  (set_session None JNull (delete "user" (delete "token" (localStorage st1))) st1,
   effs ++ [Navigate "/login"]).

Definition scheduleTokenRefresh (now : Z) (tokenToSchedule : string) (st : State)
  : State * list Effect :=
  let (st1, effs) :=
    match refreshTimeoutRef st with
    | Some h => (clearTimeout h st, [ClearTimeout h])
    | None => (st, [])
    end in
  match getTokenExpiration tokenToSchedule with
  | Some expiration =>
      if num_truthy expiration then
        let refreshTime :=
          Math_max (num_sub (num_sub expiration (of_Z now)) (Fin (5 * 60 * 1000)))
                   (Fin (60 * 1000)) in
        if num_gt refreshTime (Fin 0) then
          let (h, st2) := setTimeout refreshTime st1 in
          (set_ref (Some h) st2, effs ++ [SetTimeout h refreshTime])
        else (st1, effs)
      else (st1, effs)
  | None => (st1, effs)
  end.

Section Provider.

Variable JSON_stringify : JsValue -> string.

(** [refreshToken()]. [now1] is the clock when the stored token is
    checked, [now2] the clock once [authAPI.refresh()] has answered with
    [outcome]. *)
Definition refreshToken (now1 now2 : Z) (outcome : Api.RefreshOutcome) (st : State)
  : bool * State * list Effect :=
  let currentToken := localStorage st !! "token" in
  if negb (truthy currentToken) || isTokenExpired now1 (default "" currentToken)
  then (false, st, [])
  else
    match outcome with
    | Api.Fulfilled (Some data) =>
        let access_token := Api.access_token data in
        let userData := Api.user data in
        let ls := <["user" := JSON_stringify userData]>
                    (<["token" := access_token]> (localStorage st)) in
        let (st', effs) :=
          scheduleTokenRefresh now2 access_token
            (set_session (Some access_token) userData ls st) in
        (true, st', CallRefresh :: effs)
    | _ =>
        let (st', effs) := logout st in
        (false, st', CallRefresh :: ConsoleError "Token refresh failed:" :: effs)
    end.

(** A stored value counts when it is there and is not the text
    [undefined] or [null]. *)
Definition isValid (stored : option string) : bool :=
  truthy stored
  && negb (String.eqb (default "" stored) "undefined")
  && negb (String.eqb (default "" stored) "null").

(** [initializeAuth()], run once when the provider mounts. [now0] is the
    clock at its own expiry check. *)
Definition initializeAuth (now0 now1 now2 : Z) (outcome : Api.RefreshOutcome) (st : State)
  : State * list Effect :=
  let storedToken := localStorage st !! "token" in
  let storedUser := localStorage st !! "user" in
  let (st', effs) :=
    if isValid storedToken && isValid storedUser then
      if isTokenExpired now0 (default "" storedToken) then
        let '(refreshed, st1, effs1) := refreshToken now1 now2 outcome st in
        if refreshed then (st1, effs1)
        else let (st2, effs2) := logout st1 in (st2, effs1 ++ effs2)
      else
        match JSON_parse (default "" storedUser) with
        | Some parsedUser =>
            scheduleTokenRefresh now1 (default "" storedToken)
              (set_session storedToken parsedUser (localStorage st) st)
        | None =>
            (set_storage (delete "user" (delete "token" (localStorage st))) st,
             [ConsoleError "Failed to parse stored user data:"])
        end
    else if truthy storedToken || truthy storedUser then
      (set_storage (delete "user" (delete "token" (localStorage st))) st, [])
    else (st, []) in
  (setIsLoading false st', effs).

End Provider.

(** [isAuthenticated], as computed when the provider renders at [now]. *)
Definition isAuthenticated (now : Z) (st : State) : bool :=
  truthy (token st) && ToBoolean (user st)
  && negb (isTokenExpired now (default "" (token st))).

(** The state of a provider that has just mounted over the store [ls]. *)
Definition mounted (ls : gmap string string) : State :=
  {| user := JNull; token := None; isLoading := true; refreshTimeoutRef := None;
     localStorage := ls; timers := ∅; next_handle := 1%positive |}.

End AuthContext.

(* ===================================================================== *)
(** * utils/error-handling.ts *)
(* ===================================================================== *)

Module ErrorHandling.
Import JS Axios.

Definition code_is (error : AxiosError) (c : string) : bool :=
  match code error with
  | Some c' => String.eqb c' c
  | None => false
  end.

(** Truthiness of [error.response]. *)
Definition has_response (error : AxiosError) : bool :=
  match response error with
  | Some _ => true
  | None => false
  end.

Definition isNetworkError (error : AxiosError) : bool :=
  negb (has_response error)
  && (code_is error "NETWORK_ERROR"
      || String.eqb (message error) "Network Error"
      || String.eqb (name error) "NetworkError"
      || code_is error "ECONNABORTED").

Definition shouldRetryError (error : AxiosError) (retryCount : Z) : bool :=
  let maxRetries := 3%Z in
  if (retryCount >=? maxRetries)%Z then false
  else
    match response error with
    | Some resp =>
        if negb (status resp =? 0)%Z && (status resp >=? 400)%Z && (status resp <? 500)%Z
        then (status resp =? 408)%Z || (status resp =? 429)%Z
        else isNetworkError error || (status resp >=? 500)%Z
    | None => isNetworkError error
    end.

(** [getRetryDelay(retryCount)]; [random] is the value [Math.random()]
    returns. *)
Definition getRetryDelay (random : Q) (retryCount : Z) : Q :=
  let baseDelay := 1000%Q in
  let maxDelay := 10000%Q in
  let delay := Qmin (baseDelay * Qpower 2 retryCount) maxDelay in
  (delay + random * 1000)%Q.

(** How one call of [operation()] ends. *)
Inductive Outcome (T : Type) : Type :=
| Returned (v : T)
| Threw (e : AxiosError).
Arguments Returned {T} v.
Arguments Threw {T} e.

(** How [retryAsync] ends; the error is [None] when it throws a
    [lastError] that was never assigned. *)
Inductive Result (T : Type) : Type :=
| Ok (v : T)
| Err (e : option AxiosError).
Arguments Ok {T} v.
Arguments Err {T} e.

(** What [retryAsync] did: the number of times it called the operation,
    the delays it waited between the calls, and how it ended. *)
Record Trace (T : Type) : Type := {
  calls : nat;
  waits : list Q;
  result : Result T
}.
Arguments calls {T} _.
Arguments waits {T} _.
Arguments result {T} _.

(** The loop of [retryAsync] from index [i] on, with [left] iterations to
    go. The [i]-th call of the operation ends as [operation i] says, and
    [random i] is the random number drawn for the delay after it. With no
    iteration left the loop is over and [throw lastError] runs. *)
Fixpoint retry_loop {T : Type} (operation : Z -> Outcome T) (random : Z -> Q)
  (maxRetries : Z) (shouldRetry : AxiosError -> Z -> bool)
  (lastError : option AxiosError) (left : nat) (i : Z) : Trace T :=
  match left with
  | O => {| calls := 0; waits := []; result := Err lastError |}
  | S left' =>
      match operation i with
      | Returned v => {| calls := 1; waits := []; result := Ok v |}
      | Threw error =>
          if (i =? maxRetries)%Z || negb (shouldRetry error i)
          then {| calls := 1; waits := []; result := Err (Some error) |}
          else
            let delay := getRetryDelay (random i) i in
            let rest := retry_loop operation random maxRetries shouldRetry
                          (Some error) left' (i + 1)%Z in
            {| calls := S (calls rest); waits := delay :: waits rest;
               result := result rest |}
      end
  end.

(** [retryAsync(operation, maxRetries, shouldRetry)]: the loop runs for
    [i = 0 .. maxRetries]. *)
Definition retryAsync {T : Type} (operation : Z -> Outcome T) (random : Z -> Q)
  (maxRetries : Z) (shouldRetry : AxiosError -> Z -> bool) : Trace T :=
  retry_loop operation random maxRetries shouldRetry None
    (Z.to_nat (maxRetries + 1)) 0%Z.

End ErrorHandling.

(* ===================================================================== *)
(** * Vocabulary of the statements *)
(* ===================================================================== *)

Module Spec.
Import JS Axios.

(** The [exp] claim as the three decoders of the code reach it:
    [JSON.parse(atob(token.split('.')[1])).exp]; [None] when one of the
    steps throws. *)
Definition exp_claim (token : string) : option JsValue :=
  (atob (ToString_opt (split token "." !! 1%nat)) ≫= JSON_parse) ≫= get_exp.

(** Base64url, the encoding of the segments of a JSON Web Token
    (RFC 4648, section 5, without padding): the alphabet has [-] and [_]
    where base64 has [+] and [/]. *)
Definition base64url_value (c : ascii) : option N :=
  let n := char_code c in
  if (65 <=? n)%N && (n <=? 90)%N then Some (n - 65)%N
  else if (97 <=? n)%N && (n <=? 122)%N then Some (n - 71)%N
  else if (48 <=? n)%N && (n <=? 57)%N then Some (n + 4)%N
  else if (n =? 45)%N then Some 62%N
  else if (n =? 95)%N then Some 63%N
  else None.

Definition base64url_decode (data : string) : option string :=
  let cs := list_ascii_of_string data in
  if (length cs mod 4 =? 1)%nat then None
  else match sextets base64url_value cs with
       | Some vs => Some (string_of_list_ascii (decode_sextets vs))
       | None => None
       end.

(** The middle segment of the token decodes as base64url to a JSON text. *)
Definition decodes_as_base64url_json (token : string) : bool :=
  match split token "." !! 1%nat with
  | Some segment => bool_decide (is_Some (base64url_decode segment ≫= JSON_parse))
  | None => false
  end.

(** [Date.now() / 1000 + 30]. *)
Definition expiry_horizon (now : Z) : Q := inject_Z now * / 1000 + 30.

(** Requests that a log re-issues, suspends and settles, in order. *)
Definition sends (effs : list Api.Effect) : list Request :=
  flat_map (fun e => match e with Api.Send r => [r] | _ => [] end) effs.

Definition pushed (effs : list Api.Effect) : list Request :=
  flat_map (fun e => match e with Api.PushQueue r => [r] | _ => [] end) effs.

Definition settled (effs : list Api.Effect) : list Request :=
  flat_map (fun e => match e with
                     | Api.Resolve r _ | Api.Reject r _ => [r]
                     | _ => []
                     end) effs.

(** The settlements of queued entries in a log, in order. *)
Definition settlements (effs : list Api.Effect) : list Api.Effect :=
  flat_map (fun e => match e with
                     | Api.Resolve _ _ | Api.Reject _ _ => [e]
                     | _ => []
                     end) effs.

(** The state of the interceptor module after some run from its initial
    state. *)
Definition reachable (JSON_stringify : JsValue -> string) (st : Api.State) : Prop :=
  exists ls evs, st = fst (Api.run JSON_stringify (Api.initial ls) evs).

(** Either a refresh is in flight, with exactly one handler waiting for
    it, or none is, no handler waits and no call is queued. *)
Definition single_flight (st : Api.State) : Prop :=
  (Api.isRefreshing st = true /\ length (Api.awaiting st) = 1%nat)
  \/ (Api.isRefreshing st = false /\ Api.awaiting st = [] /\ Api.failedQueue st = []).

(** Refresh requests that a log issues. *)
Definition refresh_posts (effs : list Api.Effect) : list string :=
  flat_map (fun e => match e with Api.RefreshPost h => [h] | _ => [] end) effs.

(** Every pending timeout of the provider is the one its reference
    holds. *)
Definition tracked (st : AuthContext.State) : Prop :=
  forall h d, AuthContext.timers st !! h = Some d ->
              AuthContext.refreshTimeoutRef st = Some h.

(** The first statement of [scheduleTokenRefresh]: the timeout the
    reference holds is cleared. *)
Definition cleared (st : AuthContext.State) : AuthContext.State * list AuthContext.Effect :=
  match AuthContext.refreshTimeoutRef st with
  | Some h => (AuthContext.clearTimeout h st, [AuthContext.ClearTimeout h])
  | None => (st, [])
  end.

(** Timeouts that a log arms. *)
Definition armed (effs : list AuthContext.Effect) : list number :=
  flat_map (fun e => match e with AuthContext.SetTimeout _ d => [d] | _ => [] end) effs.

(** Calls of the refresh endpoint that a log of the provider makes. *)
Definition refresh_calls (effs : list AuthContext.Effect) : nat :=
  length (flat_map (fun e => match e with AuthContext.CallRefresh => [e] | _ => [] end) effs).

(** A failure with the HTTP status [s]. *)
Definition http_error (s : Z) (r : Request) : AxiosError :=
  {| response := Some {| status := s |}; code := Some "ERR_BAD_RESPONSE";
     message := "Request failed"; name := "AxiosError"; config := r |}.

End Spec.

(* ===================================================================== *)
(** * Concrete inputs *)
(* ===================================================================== *)

Module Examples.
Import JS Axios.

(** The clock of the examples: 1 000 000 seconds after the epoch. *)
Definition now : Z := 1000000000.

Definition token_exp_minus_100 : string := "h.eyJleHAiOjk5OTkwMH0=.s". (* exp: 999900 *)
Definition token_exp_plus_600 : string := "h.eyJleHAiOjEwMDA2MDB9.s".  (* exp: 1000600 *)
Definition token_exp_plus_3600 : string := "h.eyJleHAiOjEwMDM2MDB9.s". (* exp: 1003600 *)
Definition token_opaque : string := "test-token".

(** exp: 1000600, sub: a?b. The question mark makes the base64 text of
    the payload contain a slash. *)
Definition token_slash : string := "h.eyJleHAiOjEwMDA2MDAsInN1YiI6ImE/YiJ9.s".

(** The same payload in base64url, as a JSON Web Token carries it: an
    underscore stands where base64 has the slash. *)
Definition token_underscore : string := "h.eyJleHAiOjEwMDA2MDAsInN1YiI6ImE_YiJ9.s".

(** [JSON.stringify] on the one profile the examples use, the empty
    object. *)
Definition stringify (v : JsValue) : string := "{}".

Definition profile : JsValue := JObj [].

Definition fresh : Api.RefreshData :=
  {| Api.access_token := token_exp_plus_3600; Api.user := profile |}.

Definition callA : Request := {| url := "/workflows"; Authorization := None; _retry := false |}.
Definition callB : Request := {| url := "/nodes"; Authorization := None; _retry := false |}.
Definition callC : Request := {| url := "/approvals"; Authorization := None; _retry := false |}.

Definition unauthorized (r : Request) : AxiosError := Spec.http_error 401 r.

(** A connection timeout reported under the code [ETIMEDOUT]: no
    response was received. *)
Definition timed_out : AxiosError :=
  {| response := None; code := Some "ETIMEDOUT";
     message := "timeout of 30000ms exceeded"; name := "AxiosError";
     config := callA |}.

(** A failure the browser reports as [Network Error]. *)
Definition network_down : AxiosError :=
  {| response := None; code := Some "ERR_NETWORK";
     message := "Network Error"; name := "AxiosError"; config := callA |}.

Definition stale_store : gmap string string := <["token" := token_opaque]> ∅.

(** The store at a start-up with a credential that expired 100 seconds
    ago. *)
Definition expired_store : gmap string string :=
  <["user" := "{}"]> (<["token" := token_exp_minus_100]> ∅).

(** As sent again by the interceptor. *)
Definition replayed (retried : bool) (r : Request) : Request :=
  set_retry retried (set_Authorization ("Bearer " +:+ token_exp_plus_3600) r).

(** Call A fails with 401 and starts a refresh; the refresh succeeds and
    A is replayed; call C fails with 401 and starts a second refresh. *)
Definition second_episode : list Api.Event :=
  [Api.ResponseError now (unauthorized callA);
   Api.RefreshSettled now 0 (Api.Fulfilled (Some fresh));
   Api.ResponseError now (unauthorized callC)].

(** Call A fails with 401 and starts a refresh; call B fails with 401
    and is queued; the refresh succeeds and both are replayed; the replay
    of B fails with 401 again; the refresh it starts succeeds. *)
Definition queued_call_fails_again : list Api.Event :=
  [Api.ResponseError now (unauthorized callA);
   Api.ResponseError now (unauthorized callB);
   Api.RefreshSettled now 0 (Api.Fulfilled (Some fresh));
   Api.ResponseError now (unauthorized (replayed false callB));
   Api.RefreshSettled now 0 (Api.Fulfilled (Some fresh))].

End Examples.

(* ===================================================================== *)
(** * contexts/AuthContext.tsx: signing in, and the provider over time *)
(* ===================================================================== *)

Module AuthFlows.
Import JS AuthContext.

(** The effects of the provider, and the two calls only [login] and
    [register] make. *)
Inductive Effect : Type :=
| CallLogin (email password : string)            (* authAPI.login(email, password) *)
| CallRegister (name email password : string)    (* authAPI.register(name, email, password) *)
| Provider (e : AuthContext.Effect).

(** How an [async] function of the provider ends. *)
Inductive Completion : Type :=
| Returns
| Throws (e : Axios.exn).

Section Flows.

Variable JSON_stringify : JsValue -> string.

(** [login(email, password)]; [outcome] is how [authAPI.login] ends and
    [now] the clock when it has. *)
Definition login (email password : string) (now : Z) (outcome : Api.RefreshOutcome)
  (st : State) : Completion * State * list Effect :=
  match outcome with
  | Api.Fulfilled (Some data) =>
      let access_token := Api.access_token data in
      let userData := Api.user data in
      let ls := <["user" := JSON_stringify userData]>
                  (<["token" := access_token]> (localStorage st)) in
      let (st', effs) :=
        scheduleTokenRefresh now access_token
          (set_session (Some access_token) userData ls st) in
      (Returns, st', CallLogin email password :: map Provider (effs ++ [Navigate "/"]))
  | Api.Fulfilled None =>
      (Throws Axios.TypeErrorExn, st,
       [CallLogin email password; Provider (ConsoleError "Login failed:")])
  | Api.Rejected e =>
      (Throws (Axios.AxiosExn e), st,
       [CallLogin email password; Provider (ConsoleError "Login failed:")])
  end.

(** [register(name, email, password)]. *)
Definition register (name email password : string) (now : Z)
  (outcome : Api.RefreshOutcome) (st : State) : Completion * State * list Effect :=
  match outcome with
  | Api.Fulfilled (Some data) =>
      let access_token := Api.access_token data in
      let userData := Api.user data in
      let ls := <["user" := JSON_stringify userData]>
                  (<["token" := access_token]> (localStorage st)) in
      let (st', effs) :=
        scheduleTokenRefresh now access_token
          (set_session (Some access_token) userData ls st) in
      (Returns, st',
       CallRegister name email password :: map Provider (effs ++ [Navigate "/"]))
  | Api.Fulfilled None =>
      (Throws Axios.TypeErrorExn, st,
       [CallRegister name email password; Provider (ConsoleError "Registration failed:")])
  | Api.Rejected e =>
      (Throws (Axios.AxiosExn e), st,
       [CallRegister name email password; Provider (ConsoleError "Registration failed:")])
  end.

(** [refreshToken()] up to its [await]: whether it goes on to call the
    endpoint. *)
Definition refreshToken_calls (now : Z) (st : State) : bool :=
  let currentToken := localStorage st !! "token" in
  negb (negb (truthy currentToken) || isTokenExpired now (default "" currentToken)).

(** [refreshToken()] from its [await] on, in the state the provider is
    in by then. *)
Definition refreshToken_answered (now : Z) (outcome : Api.RefreshOutcome) (st : State)
  : bool * State * list AuthContext.Effect :=
  match outcome with
  | Api.Fulfilled (Some data) =>
      let access_token := Api.access_token data in
      let userData := Api.user data in
      let ls := <["user" := JSON_stringify userData]>
                  (<["token" := access_token]> (localStorage st)) in
      let (st', effs) :=
        scheduleTokenRefresh now access_token
          (set_session (Some access_token) userData ls st) in
      (true, st', effs)
  | _ =>
      let (st', effs) := logout st in
      (false, st', ConsoleError "Token refresh failed:" :: effs)
  end.

(** The platform runs the timeout [h]: it is no longer pending, and its
    callback starts [refreshToken()]. *)
Definition timer_fired (h : positive) (now : Z) (st : State) : State * list Effect :=
  match timers st !! h with
  | Some _ =>
      let st' := clearTimeout h st in
      (st', if refreshToken_calls now st' then [Provider CallRefresh] else [])
  | None => (st, [])
  end.

(** The clean-up of the effect when the provider unmounts. *)
Definition unmount (st : State) : State * list Effect :=
  match refreshTimeoutRef st with
  | Some h => (clearTimeout h st, [Provider (ClearTimeout h)])
  | None => (st, [])
  end.

(** What can happen to the provider between two of its suspension
    points. [Logout] is [logout()], called by a consumer or by the
    listener of [auth:logout]. [RefreshToken] is a [refreshToken()] that
    nothing interrupts; [RefreshAnswered] resumes one that was waiting
    for the endpoint. *)
Inductive Event : Type :=
| Login (email password : string) (now : Z) (outcome : Api.RefreshOutcome)
| Register (name email password : string) (now : Z) (outcome : Api.RefreshOutcome)
| Logout
| InitializeAuth (now0 now1 now2 : Z) (outcome : Api.RefreshOutcome)
| TimerFired (h : positive) (now : Z)
| RefreshToken (now1 now2 : Z) (outcome : Api.RefreshOutcome)
| RefreshAnswered (now : Z) (outcome : Api.RefreshOutcome)
| Unmount.

Definition step (st : State) (ev : Event) : State * list Effect :=
  match ev with
  | Login email password now outcome =>
      let '(_, st', effs) := login email password now outcome st in (st', effs)
  | Register name email password now outcome =>
      let '(_, st', effs) := register name email password now outcome st in (st', effs)
  | Logout => let (st', effs) := logout st in (st', map Provider effs)
  | InitializeAuth now0 now1 now2 outcome =>
      let (st', effs) := initializeAuth JSON_stringify now0 now1 now2 outcome st in
      (st', map Provider effs)
  | TimerFired h now => timer_fired h now st
  | RefreshToken now1 now2 outcome =>
      let '(_, st', effs) := refreshToken JSON_stringify now1 now2 outcome st in
      (st', map Provider effs)
  | RefreshAnswered now outcome =>
      let '(_, st', effs) := refreshToken_answered now outcome st in
      (st', map Provider effs)
  | Unmount => unmount st
  end.

Fixpoint run (st : State) (evs : list Event) : State * list Effect :=
  match evs with
  | [] => (st, [])
  | ev :: evs' =>
      let (st1, effs1) := step st ev in
      let (st2, effs2) := run st1 evs' in
      (st2, effs1 ++ effs2)
  end.

End Flows.

End AuthFlows.

(* ===================================================================== *)
(** * utils/error-handling.ts: messages *)
(* ===================================================================== *)

Module ErrorReporting.
Import JS Axios ErrorHandling.

(** [s.includes(sub)] *)
Fixpoint includes (s sub : string) : bool :=
  String.prefix sub s
  || match s with
     | EmptyString => false
     | String _ s' => includes s' sub
     end.

(** [error.response.data], as far as [getErrorMessage] reads it. *)
Record ResponseData : Type := {
  data_detail : option string;     (* data.detail *)
  data_message : option string     (* data.message *)
}.

(** Truthiness of a string that may be missing. *)
Definition nonempty (s : option string) : bool :=
  match s with
  | Some s => negb (String.eqb s "")
  | None => false
  end.

Definition isTimeoutError (error : AxiosError) : bool :=
  code_is error "ECONNABORTED" || includes (message error) "timeout".

(** [getErrorMessage(error)]; [data] is [error.response.data], read only
    when the error has a response. *)
Definition getErrorMessage (error : AxiosError) (data : option ResponseData) : string :=
  let data := if has_response error then data else None in
  if isNetworkError error then
    "Unable to connect to the server. Please check your internet connection."
  else if isTimeoutError error then
    "The request timed out. Please try again."
  else if nonempty (data ≫= data_detail) then default "" (data ≫= data_detail)
  else if nonempty (data ≫= data_message) then default "" (data ≫= data_message)
  else if nonempty (Some (message error)) then message error
  else "An unexpected error occurred".

End ErrorReporting.

(* ===================================================================== *)
(** * More vocabulary *)
(* ===================================================================== *)

Module Observe.
Import JS Axios.

(** Failures a log returns to callers: the call and the error its
    promise rejects with. *)
Definition rethrown (effs : list Api.Effect) : list (Request * exn) :=
  flat_map (fun e => match e with Api.Rethrow r err => [(r, err)] | _ => [] end) effs.

(** The events of one type that a log publishes on [window], each with
    its context. *)
Definition dispatched (type : string) (effs : list Api.Effect) : list (option string) :=
  flat_map (fun e => match e with
                     | Api.DispatchEvent type' context =>
                         if String.eqb type' type then [context] else []
                     | _ => []
                     end) effs.

(** Keys of the store that a log writes or removes. *)
Definition written (effs : list Api.Effect) : list string :=
  flat_map (fun e => match e with
                     | Api.SetItem key _ | Api.RemoveItem key => [key]
                     | _ => []
                     end) effs.

(** An event of the interceptor itself, as opposed to a write of the
    store by another module. *)
Definition own_event (ev : Api.Event) : bool :=
  match ev with
  | Api.ResponseError _ _ | Api.RefreshSettled _ _ _ => true
  | _ => false
  end.

(** The calls that fail in a list of events, each with its error. *)
Definition failed_calls (evs : list Api.Event) : list (Request * exn) :=
  flat_map (fun ev => match ev with
                      | Api.ResponseError _ error => [(config error, AxiosExn error)]
                      | _ => []
                      end) evs.


(** A failure the interceptor does not try to recover from: one without
    a response, one with a status other than 401, or one of a call that
    carries the [_retry] mark. *)
Definition terminal (ev : Api.Event) : bool :=
  match ev with
  | Api.ResponseError _ error =>
      match response error with
      | Some resp => negb ((status resp =? 401)%Z && negb (_retry (config error)))
      | None => true
      end
  | _ => false
  end.


(** Timeouts armed and refresh calls made, in a log of the provider over
    time. *)
Definition provider_effects (effs : list AuthFlows.Effect) : list AuthContext.Effect :=
  flat_map (fun e => match e with AuthFlows.Provider e' => [e'] | _ => [] end) effs.




(** A session of the provider: nobody is signed in. *)
Definition anonymous (st : AuthContext.State) : Prop :=
  AuthContext.token st = None /\ AuthContext.user st = JNull.

(** Every handler of the interceptor that waits for the refresh endpoint
    holds a request that carries the [_retry] mark. *)
Definition marked (st : Api.State) : Prop :=
  Forall (fun r => _retry r = true) (Api.awaiting st).

End Observe.

(* ===================================================================== *)
(** * lib/api.ts: the promise of a queued call *)
(* ===================================================================== *)

Module QueuedCall.
Import JS Axios Api.

(** How [processQueue] settles the entry of a queued call. *)
Inductive Settlement : Type :=
| Resolved (token : option string)
| RejectedWith (e : exn).

(** How [apiClient(originalRequest)], the replay, ends once the
    interceptors have run on it. *)
Inductive Replay : Type :=
| ReplayFulfilled
| ReplayRejected (e : exn).

(** How the promise returned for the queued call ends. *)
Inductive Result : Type :=
| CallFulfilled
| CallRejected (e : exn).

(** The settlement as [processQueue] logs it. *)
Definition settles (originalRequest : Request) (settlement : Settlement) : Effect :=
  match settlement with
  | Resolved token => Resolve originalRequest token
  | RejectedWith e => Reject originalRequest e
  end.

(** [new Promise(push).then(replay).catch(report)], from the settlement
    of the entry on. The [catch] callback follows the [then] callback in
    the chain, so it receives the rejection of the entry and the
    rejection of the replay alike. *)
Definition queued_call (now : Z) (ls : gmap string string) (originalRequest : Request)
  (settlement : Settlement) (replay : Replay) : list Effect * Result :=
  match settlement with
  | RejectedWith err =>
      (handleApiError originalRequest err (Some "Token refresh failed"), CallRejected err)
  | Resolved token =>
      let bearer := "Bearer " +:+ match token with Some t => t | None => "null" end in
      let sent := Send (requestInterceptor now ls (set_Authorization bearer originalRequest)) in
      match replay with
      | ReplayFulfilled => ([sent], CallFulfilled)
      | ReplayRejected err =>
          (sent :: handleApiError originalRequest err (Some "Token refresh failed"),
           CallRejected err)
      end
  end.

End QueuedCall.

(* ===================================================================== *)
(** * Numbers *)
(* ===================================================================== *)

Module NumberFacts.
Import JS.

Lemma Qltb_lt (a b : Q) : Qltb a b = true <-> (a < b)%Q.
Proof.
  unfold Qltb. rewrite negb_true_iff. split.
  - intros H. apply Qnot_le_lt. intros Hle.
    apply Qle_bool_iff in Hle. congruence.
  - intros H. destruct (Qle_bool b a) eqn:E; [|reflexivity].
    apply Qle_bool_iff in E. lra.
Qed.



(** A later clock never turns "less than the horizon" into "not less". *)
Lemma num_lt_mono (x : number) (a b : Q) :
  (a <= b)%Q -> num_lt x (Fin a) = true -> num_lt x (Fin b) = true.
Proof.
  intros Hab. destruct x as [| |q|]; simpl; try done.
  rewrite !Qltb_lt. lra.
Qed.


Lemma horizon_mono (now now' : Z) :
  (now <= now')%Z -> (Spec.expiry_horizon now <= Spec.expiry_horizon now')%Q.
Proof.
  intros H. unfold Spec.expiry_horizon.
  assert (inject_Z now <= inject_Z now')%Q by (rewrite <- Zle_Qle; exact H).
  change (/ 1000)%Q with (1 # 1000)%Q. lra.
Qed.

End NumberFacts.

(* ===================================================================== *)
(** * The expiry predicate *)
(* ===================================================================== *)

Module ExpiryFacts.
Import JS NumberFacts.

Lemma api_isTokenExpired_unfold (now : Z) (token : string) :
  Api.isTokenExpired now token =
  match Spec.exp_claim token with
  | None => true
  | Some exp => num_lt (ToNumber exp) (Fin (Spec.expiry_horizon now))
  end.
Proof.
  unfold Api.isTokenExpired, Spec.exp_claim.
  destruct (atob _) as [text|]; simpl; [|reflexivity].
  destruct (JSON_parse text) as [payload|]; simpl; [|reflexivity].
  destruct (get_exp payload) as [exp|]; reflexivity.
Qed.

Lemma context_isTokenExpired_unfold (now : Z) (token : string) :
  AuthContext.isTokenExpired now token =
  match Spec.exp_claim token with
  | None => true
  | Some exp => num_lt (ToNumber exp) (Fin (Spec.expiry_horizon now))
  end.
Proof.
  unfold AuthContext.isTokenExpired, Spec.exp_claim.
  destruct (atob _) as [text|]; simpl; [|reflexivity].
  destruct (JSON_parse text) as [payload|]; simpl; [|reflexivity].
  destruct (get_exp payload) as [exp|]; reflexivity.
Qed.

(** The claim is reached exactly when [atob] accepts the segment,
    [JSON.parse] accepts the text, and the value parsed is not [null]. *)
Lemma exp_claim_None (token : string) :
  Spec.exp_claim token = None <->
  let segment := ToString_opt (split token "." !! 1%nat) in
  atob segment = None
  \/ (exists text, atob segment = Some text /\ JSON_parse text = None)
  \/ (exists text payload, atob segment = Some text
        /\ JSON_parse text = Some payload
        /\ (payload = JNull \/ payload = JUndefined)).
Proof.
  unfold Spec.exp_claim. simpl.
  destruct (atob _) as [text|]; simpl.
  - destruct (JSON_parse text) as [payload|] eqn:Hp; simpl.
    + split.
      * intros H. right. right. exists text, payload.
        split; [reflexivity|]. split; [exact Hp|].
        destruct payload; simpl in H; try discriminate; auto.
      * intros [H|[(t & H & Hn)|(t & p & Ht & Hq & Hnull)]]; try discriminate.
        -- injection H as <-. congruence.
        -- injection Ht as <-. rewrite Hp in Hq. injection Hq as <-.
           destruct Hnull as [-> | ->]; reflexivity.
    + split; [|reflexivity].
      intros _. right. left. exists text. split; [reflexivity | exact Hp].
  - split; [auto | reflexivity].
Qed.

Lemma isTokenExpired_mono (now now' : Z) (token : string) :
  (now <= now')%Z ->
  AuthContext.isTokenExpired now token = true ->
  AuthContext.isTokenExpired now' token = true.
Proof.
  intros Hle. rewrite !context_isTokenExpired_unfold.
  destruct (Spec.exp_claim token) as [exp|]; [|reflexivity].
  apply num_lt_mono, horizon_mono, Hle.
Qed.

(** Whatever stops the decoder, the token counts as expired. *)
Lemma undecodable_is_expired (now : Z) (token : string) :
  Spec.exp_claim token = None ->
  Api.isTokenExpired now token = true /\ AuthContext.isTokenExpired now token = true.
Proof.
  intros H. rewrite api_isTokenExpired_unfold, context_isTokenExpired_unfold, H. auto.
Qed.




(** The converse mismatch: the middle segment of this token is base64url
    for a payload that expires in ten minutes; [atob] rejects the
    underscore, and the token counts as expired. *)
Lemma base64url_token_counts_as_expired :
  Spec.decodes_as_base64url_json Examples.token_underscore = true
  /\ Spec.exp_claim Examples.token_underscore = None
  /\ Api.isTokenExpired Examples.now Examples.token_underscore = true.
Proof. vm_compute. auto. Qed.

End ExpiryFacts.

(* ===================================================================== *)
(** * The retry policy *)
(* ===================================================================== *)

Module RetryFacts.
Import JS Axios ErrorHandling.

Lemma shouldRetryError_exhausted (error : AxiosError) (retryCount : Z) :
  (3 <= retryCount)%Z -> shouldRetryError error retryCount = false.
Proof.
  intros H. unfold shouldRetryError.
  destruct (retryCount >=? 3)%Z eqn:E; [reflexivity | lia].
Qed.

(** Below the limit the answer does not depend on the count. *)
Lemma shouldRetryError_below (error : AxiosError) (retryCount : Z) :
  (retryCount < 3)%Z ->
  shouldRetryError error retryCount =
  match response error with
  | Some resp =>
      if decide (400 <= status resp < 500)%Z
      then bool_decide (status resp = 408%Z \/ status resp = 429%Z)
      else bool_decide (500 <= status resp)%Z
  | None => isNetworkError error
  end.
Proof.
  intros H. unfold shouldRetryError, isNetworkError, has_response.
  destruct (retryCount >=? 3)%Z eqn:E; [lia|].
  destruct (response error) as [[s]|] eqn:Hr; simpl; [|reflexivity].
  destruct (decide (400 <= s < 500)%Z) as [Hs|Hs].
  - replace (s =? 0)%Z with false by lia.
    replace (s >=? 400)%Z with true by lia.
    replace (s <? 500)%Z with true by lia. simpl.
    destruct (bool_decide_reflect (s = 408%Z \/ s = 429%Z)) as [Hd|Hd].
    + destruct Hd as [-> | ->]; reflexivity.
    + replace (s =? 408)%Z with false by lia.
      replace (s =? 429)%Z with false by lia. reflexivity.
  - replace (negb (s =? 0)%Z && (s >=? 400)%Z && (s <? 500)%Z) with false.
    2:{ symmetry. destruct (s =? 0)%Z eqn:E0; [reflexivity|]. simpl.
        destruct (s >=? 400)%Z eqn:E1; [|reflexivity]. simpl. lia. }
    simpl. destruct (bool_decide_reflect (500 <= s)%Z); lia.
Qed.





(** ** Backoff *)




End RetryFacts.

(* ===================================================================== *)
(** * The proactive scheduler and the start-up of the provider *)
(* ===================================================================== *)

Module ProviderFacts.
Import JS NumberFacts ExpiryFacts AuthContext.

Lemma cleared_timers (st : State) :
  Spec.tracked st -> timers (fst (Spec.cleared st)) = ∅.
Proof.
  intros Htr. unfold Spec.cleared. apply map_eq. intros i. rewrite lookup_empty.
  destruct (refreshTimeoutRef st) as [h|] eqn:Href; simpl.
  - destruct (decide (h = i)) as [->|Hne].
    + apply lookup_delete_eq.
    + rewrite lookup_delete_ne by exact Hne.
      destruct (timers st !! i) as [d|] eqn:Hi; [|reflexivity].
      apply Htr in Hi. congruence.
  - destruct (timers st !! i) as [d|] eqn:Hi; [|reflexivity].
    apply Htr in Hi. congruence.
Qed.

Lemma cleared_fields (st : State) :
  let st1 := fst (Spec.cleared st) in
  refreshTimeoutRef st1 = refreshTimeoutRef st
  /\ next_handle st1 = next_handle st
  /\ Spec.armed (snd (Spec.cleared st)) = []
  /\ (forall h, refreshTimeoutRef st = Some h ->
        In (ClearTimeout h) (snd (Spec.cleared st)) /\ timers st1 !! h = None)
  /\ (forall h d, timers st1 !! h = Some d -> timers st !! h = Some d).
Proof.
  unfold Spec.cleared. destruct (refreshTimeoutRef st) as [h|] eqn:Href; simpl.
  - split; [exact Href|]. split; [reflexivity|]. split; [reflexivity|]. split.
    + intros h' H. injection H as ->. split; [auto | apply lookup_delete_eq].
    + intros h' d H. apply lookup_delete_Some in H. tauto.
  - split; [exact Href|]. split; [reflexivity|]. split; [reflexivity|]. split.
    + discriminate.
    + auto.
Qed.

Lemma scheduleTokenRefresh_unfold (now : Z) (tokenToSchedule : string) (st : State) :
  scheduleTokenRefresh now tokenToSchedule st =
  let st1 := fst (Spec.cleared st) in
  let effs := snd (Spec.cleared st) in
  match getTokenExpiration tokenToSchedule with
  | Some expiration =>
      if num_truthy expiration then
        let refreshTime :=
          Math_max (num_sub (num_sub expiration (of_Z now)) (Fin (5 * 60 * 1000)))
                   (Fin (60 * 1000)) in
        if num_gt refreshTime (Fin 0) then
          (set_ref (Some (next_handle st1)) (snd (setTimeout refreshTime st1)),
           effs ++ [SetTimeout (next_handle st1) refreshTime])
        else (st1, effs)
      else (st1, effs)
  | None => (st1, effs)
  end.
Proof.
  unfold scheduleTokenRefresh, Spec.cleared.
  destruct (refreshTimeoutRef st); reflexivity.
Qed.


Lemma getTokenExpiration_unfold (token : string) :
  getTokenExpiration token =
  match Spec.exp_claim token with
  | Some exp => Some (num_mul (ToNumber exp) (Fin 1000))
  | None => None
  end.
Proof.
  unfold getTokenExpiration, Spec.exp_claim.
  destruct (atob _) as [text|]; simpl; [|reflexivity].
  destruct (JSON_parse text) as [payload|]; simpl; [|reflexivity].
  destruct (get_exp payload); reflexivity.
Qed.


(** The invariant the scheduling theorem assumes holds when the provider
    mounts and is kept by both functions that touch the timer. *)
Lemma mounted_tracked (ls : gmap string string) : Spec.tracked (mounted ls).
Proof. intros h d H. simpl in H. rewrite lookup_empty in H. discriminate. Qed.

Lemma scheduleTokenRefresh_tracked (now : Z) (token : string) (st : State) :
  Spec.tracked st -> Spec.tracked (fst (scheduleTokenRefresh now token st)).
Proof.
  intros Htr. rewrite scheduleTokenRefresh_unfold.
  pose proof (cleared_timers st Htr) as Hempty.
  assert (Hnone : Spec.tracked (fst (Spec.cleared st))).
  { intros h d H. rewrite Hempty, lookup_empty in H. discriminate. }
  cbv zeta.
  destruct (getTokenExpiration token) as [expiration|]; [|exact Hnone].
  destruct (num_truthy expiration); [|exact Hnone].
  destruct (num_gt _ _); [|exact Hnone].
  intros h d H. simpl in *. rewrite Hempty in H.
  apply lookup_insert_Some in H as [[<- _]|[_ H]]; [reflexivity|].
  rewrite lookup_empty in H. discriminate.
Qed.





(** Whatever stops the decoder, no timeout is armed. *)
Lemma scheduleTokenRefresh_undecodable (now : Z) (token : string) (st : State) :
  Spec.exp_claim token = None ->
  getTokenExpiration token = None
  /\ scheduleTokenRefresh now token st = Spec.cleared st.
Proof.
  intros Hexp.
  rewrite scheduleTokenRefresh_unfold, getTokenExpiration_unfold, Hexp.
  split; [reflexivity|]. cbv zeta iota. destruct (Spec.cleared st); reflexivity.
Qed.

(** C10, as the code has it. For every token whose middle segment
    decodes neither as base64url JSON nor through [atob] and
    [JSON.parse] to a payload other than [null]: [getTokenExpiration]
    returns [null]; [scheduleTokenRefresh] returns normally, clears the
    timeout the reference holds and arms none, so that no timeout is
    pending afterwards when the only one that could be was the one the
    reference held. *)
Theorem undecodable_token_arms_no_timer (now : Z) (token : string) (st : State) :
  Spec.decodes_as_base64url_json token = false ->
  Spec.exp_claim token = None ->
  let st' := fst (scheduleTokenRefresh now token st) in
  let effs := snd (scheduleTokenRefresh now token st) in
  getTokenExpiration token = None
  /\ Spec.armed effs = []
  /\ next_handle st' = next_handle st
  /\ (forall h, refreshTimeoutRef st = Some h ->
        In (ClearTimeout h) effs /\ timers st' !! h = None)
  /\ (forall h d, timers st' !! h = Some d -> timers st !! h = Some d)
  /\ (Spec.tracked st -> timers st' = ∅).
Proof.
  intros _ Hexp st' effs. subst st' effs.
  destruct (scheduleTokenRefresh_undecodable now token st Hexp) as (Hnull & ->).
  destruct (cleared_fields st) as (Href & Hnext & Harmed & Hclear & Hold).
  split; [exact Hnull|]. split; [exact Harmed|]. split; [exact Hnext|].
  split; [exact Hclear|]. split; [exact Hold|]. apply cleared_timers.
Qed.

Lemma undecodable_token_arms_no_timer_witness :
  getTokenExpiration Examples.token_opaque = None
  /\ timers (fst (scheduleTokenRefresh Examples.now Examples.token_opaque
                    (fst (scheduleTokenRefresh Examples.now Examples.token_exp_plus_600
                            (mounted ∅))))) = ∅.
Proof.
  assert (Hexp : Spec.exp_claim Examples.token_opaque = None)
    by (vm_compute; reflexivity).
  destruct (undecodable_token_arms_no_timer Examples.now Examples.token_opaque
              (fst (scheduleTokenRefresh Examples.now Examples.token_exp_plus_600
                      (mounted ∅))) eq_refl Hexp)
    as (Hnull & _ & _ & _ & _ & Hempty).
  split; [exact Hnull|].
  apply Hempty, scheduleTokenRefresh_tracked, mounted_tracked.
Defined.

(** C10, as stated, fails: the middle segment of this token is not
    base64url (it contains a slash), yet [getTokenExpiration] decodes it
    and [scheduleTokenRefresh] arms a timeout from it. *)
Lemma undecodable_base64url_arms_timer :
  Spec.decodes_as_base64url_json Examples.token_slash = false
  /\ getTokenExpiration Examples.token_slash = Some (Fin 1000600000)
  /\ Spec.armed (snd (scheduleTokenRefresh Examples.now Examples.token_slash
                        (mounted ∅))) = [Fin 300000].
Proof. vm_compute. auto. Qed.

(** ** Start-up *)

Section Startup.

Variable JSON_stringify : JsValue -> string.

(** [refreshToken] gives up before it calls the endpoint when the stored
    token is missing or expired. *)
Lemma refreshToken_expired (now1 now2 : Z) (outcome : Api.RefreshOutcome)
  (st : State) (tok : string) :
  localStorage st !! "token" = Some tok ->
  isTokenExpired now1 tok = true ->
  refreshToken JSON_stringify now1 now2 outcome st = (false, st, []).
Proof.
  intros Htok Hexpired. unfold refreshToken. rewrite Htok. simpl.
  rewrite Hexpired, orb_true_r. reflexivity.
Qed.

(** With a stored token that is not expired, [refreshToken] does call
    the endpoint, whatever the interceptor of [lib/api.ts] is doing. *)
Lemma refreshToken_calls_endpoint (now1 now2 : Z) (outcome : Api.RefreshOutcome)
  (st : State) (tok : string) :
  localStorage st !! "token" = Some tok ->
  truthy (Some tok) = true ->
  isTokenExpired now1 tok = false ->
  Spec.refresh_calls (snd (refreshToken JSON_stringify now1 now2 outcome st)) = 1%nat.
Proof.
  intros Htok Htruthy Hvalid. unfold refreshToken.
  rewrite Htok, Htruthy. simpl default. rewrite Hvalid. simpl.
  assert (Hs : forall now t s, Spec.refresh_calls (snd (scheduleTokenRefresh now t s)) = 0%nat).
  { intros now t s. rewrite scheduleTokenRefresh_unfold. cbv zeta.
    assert (Hc : Spec.refresh_calls (snd (Spec.cleared s)) = 0%nat)
      by (unfold Spec.cleared; destruct (refreshTimeoutRef s); reflexivity).
    destruct (getTokenExpiration t) as [x|]; [|exact Hc].
    destruct (num_truthy x); [|exact Hc].
    destruct (num_gt _ _); [|exact Hc].
    simpl. unfold Spec.refresh_calls in *. rewrite flat_map_app, length_app, Hc.
    reflexivity. }
  destruct outcome as [[data|]|e].
  - match goal with
    | |- context [scheduleTokenRefresh ?n ?t ?s] =>
        specialize (Hs n t s); destruct (scheduleTokenRefresh n t s) as [st' effs]
    end.
    simpl in *. unfold Spec.refresh_calls in *. simpl. rewrite Hs. reflexivity.
  - unfold logout. destruct (refreshTimeoutRef st); reflexivity.
  - unfold logout. destruct (refreshTimeoutRef st); reflexivity.
Qed.

(** C9: what the code does at the start-up the claim describes. The
    store holds a valid user and a token that [isTokenExpired] finds
    expired. Whatever the refresh endpoint would answer, [initializeAuth]
    never calls it: [refreshToken] checks the stored token with the same
    predicate, finds it expired as well and returns [false], and
    [initializeAuth] logs out. The session ends anonymous: no token, no
    user, both entries of the store removed, no timeout armed, and a
    navigation to the login page. *)
Theorem expired_token_at_startup_is_never_refreshed
  (now0 now1 now2 : Z) (outcome : Api.RefreshOutcome) (st : State) (tok usr : string) :
  localStorage st !! "token" = Some tok ->
  localStorage st !! "user" = Some usr ->
  isValid (Some tok) = true -> isValid (Some usr) = true ->
  isTokenExpired now0 tok = true -> (now0 <= now1)%Z ->
  let st' := fst (initializeAuth JSON_stringify now0 now1 now2 outcome st) in
  let effs := snd (initializeAuth JSON_stringify now0 now1 now2 outcome st) in
  Spec.refresh_calls effs = 0%nat
  /\ Spec.armed effs = []
  /\ In (Navigate "/login") effs
  /\ token st' = None /\ user st' = JNull
  /\ localStorage st' !! "token" = None /\ localStorage st' !! "user" = None
  /\ isLoading st' = false
  /\ (forall now, isAuthenticated now st' = false).
Proof.
  intros Htok Husr Hvt Hvu Hexpired Hle st' effs. subst st' effs.
  unfold initializeAuth. rewrite Htok, Husr, Hvt, Hvu. simpl default.
  rewrite Hexpired. cbv iota. simpl andb. cbv iota.
  rewrite (refreshToken_expired now1 now2 outcome st tok Htok
             (isTokenExpired_mono now0 now1 tok Hle Hexpired)).
  unfold logout. destruct (refreshTimeoutRef st) as [h|]; simpl.
  - repeat split; auto.
    + rewrite lookup_delete_ne by discriminate. apply lookup_delete_eq.
    + apply lookup_delete_eq.
  - repeat split; auto.
    + rewrite lookup_delete_ne by discriminate. apply lookup_delete_eq.
    + apply lookup_delete_eq.
Qed.

End Startup.

(** The scenario of the claim: the clock reads 1 000 000 s, the stored
    token has [exp = 999 900], a user is stored, and the refresh endpoint
    would answer with a fresh token. *)
Lemma expired_token_at_startup_is_never_refreshed_witness :
  let run := initializeAuth Examples.stringify Examples.now Examples.now Examples.now
               (Api.Fulfilled (Some Examples.fresh)) (mounted Examples.expired_store) in
  Spec.exp_claim Examples.token_exp_minus_100 = Some (JNum 999900)
  /\ Spec.refresh_calls (snd run) = 0%nat
  /\ token (fst run) = None
  /\ isAuthenticated Examples.now (fst run) = false.
Proof.
  split; [vm_compute; reflexivity|].
  destruct (expired_token_at_startup_is_never_refreshed Examples.stringify
              Examples.now Examples.now Examples.now
              (Api.Fulfilled (Some Examples.fresh)) (mounted Examples.expired_store)
              Examples.token_exp_minus_100 "{}")
    as (Hcalls & _ & _ & Htoken & _ & _ & _ & _ & Hauth);
    try (vm_compute; reflexivity); [lia|].
  split; [exact Hcalls|]. split; [exact Htoken|]. apply Hauth.
Defined.

End ProviderFacts.

(* ===================================================================== *)
(** * The refresh coordinator *)
(* ===================================================================== *)

Module CoordinatorFacts.
Import JS Axios Api.

(** ** [processQueue] *)

Lemma processQueue_queue (error : option exn) (token : option string) (q : list Request) :
  snd (processQueue error token q) = [].
Proof. reflexivity. Qed.

Lemma processQueue_settlements (error : option exn) (token : option string)
  (q : list Request) :
  Spec.settlements (fst (processQueue error token q)) = fst (processQueue error token q)
  /\ Spec.settled (fst (processQueue error token q)) = q
  /\ Spec.pushed (fst (processQueue error token q)) = []
  /\ Spec.sends (fst (processQueue error token q)) = []
  /\ Spec.refresh_posts (fst (processQueue error token q)) = [].
Proof.
  simpl. induction q as [|r q (IH1 & IH2 & IH3 & IH4 & IH5)]; [auto|].
  destruct error; simpl; rewrite ?IH1, ?IH2; auto.
Qed.

(** ** Replays *)

Lemma requestInterceptor_fresh (now : Z) (ls : gmap string string) (tok : string)
  (r : Request) :
  ls !! "token" = Some tok ->
  requestInterceptor now ls (set_Authorization ("Bearer " +:+ tok) r)
  = set_Authorization ("Bearer " +:+ tok) r.
Proof.
  intros Htok. unfold requestInterceptor. rewrite Htok. simpl.
  destruct (negb (String.eqb tok "") && negb (isTokenExpired now tok)); reflexivity.
Qed.

Section Coordinator.

Variable JSON_stringify : JsValue -> string.

Lemma reactions_resolved (now : Z) (ls : gmap string string) (tok : string)
  (q : list Request) :
  ls !! "token" = Some tok ->
  flat_map (queued_reaction now ls) (fst (processQueue None (Some tok) q))
  = map (fun r => Send (set_Authorization ("Bearer " +:+ tok) r)) q.
Proof.
  intros Htok. simpl. induction q as [|r q IH]; [reflexivity|].
  simpl. rewrite requestInterceptor_fresh by exact Htok. rewrite IH. reflexivity.
Qed.

Lemma reactions_rejected (now : Z) (ls : gmap string string) (e : exn)
  (q : list Request) :
  flat_map (queued_reaction now ls) (fst (processQueue (Some e) None q))
  = flat_map (fun r => [DispatchEvent "api:error" (Some "Token refresh failed");
                        Rethrow r e]) q.
Proof.
  simpl. induction q as [|r q IH]; [reflexivity|].
  simpl. rewrite IH. reflexivity.
Qed.

Lemma flat_map_no_effect {A : Type} (f : Effect -> list A) (g : Request -> Effect)
  (q : list Request) :
  (forall r, f (g r) = []) -> flat_map f (map g q) = [].
Proof.
  intros H. induction q as [|r q IH]; simpl; [reflexivity|].
  rewrite H, IH. reflexivity.
Qed.

Lemma flat_map_no_effect2 {A : Type} (f : Effect -> list A) (g : Request -> list Effect)
  (q : list Request) :
  (forall r, flat_map f (g r) = []) -> flat_map f (flat_map g q) = [].
Proof.
  intros H. induction q as [|r q IH]; simpl; [reflexivity|].
  rewrite flat_map_app, H, IH. reflexivity.
Qed.

(** ** The two ends of a refresh *)

Lemma refresh_failed_spec (now : Z) (r : Request) (e : exn) (st : State) :
  let st' := fst (refresh_failed now r e st) in
  let effs := snd (refresh_failed now r e st) in
  effs = map (fun q => Reject q e) (failedQueue st)
         ++ [RemoveItem "token"; RemoveItem "user"; DispatchEvent "auth:logout" None;
             DispatchEvent "api:error" (Some "Authentication failed");
             SetRefreshing false; Rethrow r e]
         ++ flat_map (fun q => [DispatchEvent "api:error" (Some "Token refresh failed");
                                Rethrow q e]) (failedQueue st)
  /\ isRefreshing st' = false /\ failedQueue st' = [] /\ awaiting st' = awaiting st
  /\ localStorage st' !! "token" = None /\ localStorage st' !! "user" = None.
Proof.
  unfold refresh_failed. simpl.
  split.
  { f_equal. simpl. repeat f_equal.
    apply (reactions_rejected now _ e (failedQueue st)). }
  repeat split.
  - rewrite lookup_delete_ne by discriminate. apply lookup_delete_eq.
  - apply lookup_delete_eq.
Qed.

Lemma refresh_succeeded_spec (now : Z) (r : Request) (data : RefreshData) (st : State) :
  let st' := fst (refresh_succeeded JSON_stringify now r data st) in
  let effs := snd (refresh_succeeded JSON_stringify now r data st) in
  let bearer := "Bearer " +:+ access_token data in
  effs = [SetItem "token" (access_token data);
          SetItem "user" (JSON_stringify (user data))]
         ++ map (fun q => Resolve q (Some (access_token data))) (failedQueue st)
         ++ [Send (set_Authorization bearer r); SetRefreshing false]
         ++ map (fun q => Send (set_Authorization bearer q)) (failedQueue st)
  /\ isRefreshing st' = false /\ failedQueue st' = [] /\ awaiting st' = awaiting st
  /\ localStorage st' !! "token" = Some (access_token data).
Proof.
  unfold Api.refresh_succeeded. simpl.
  assert (Htok : <["user" := JSON_stringify (user data)]>
                   (<["token" := access_token data]> (localStorage st)) !! "token"
                 = Some (access_token data)).
  { rewrite lookup_insert_ne by discriminate. apply lookup_insert_eq. }
  split; [|auto].
  rewrite requestInterceptor_fresh by exact Htok.
  do 3 f_equal. f_equal. do 2 f_equal.
  apply (reactions_resolved now _ (access_token data) (failedQueue st) Htok).
Qed.


(** ** One step *)

Lemma onRefreshSettled_unfold (now : Z) (k : nat) (outcome : RefreshOutcome)
  (st : State) (r : Request) :
  awaiting st !! k = Some r ->
  onRefreshSettled JSON_stringify now k outcome st =
  let st1 := {| isRefreshing := isRefreshing st; failedQueue := failedQueue st;
                localStorage := localStorage st;
                awaiting := delete k (awaiting st) |} in
  match outcome with
  | Fulfilled (Some data) => refresh_succeeded JSON_stringify now r data st1
  | Fulfilled None => refresh_failed now r TypeErrorExn st1
  | Rejected e => refresh_failed now r (AxiosExn e) st1
  end.
Proof. intros H. unfold onRefreshSettled. rewrite H. reflexivity. Qed.

(** What a step does to the queue: the calls it suspends join the queue
    at its end, the calls it settles leave it from its front. *)
Lemma step_queue (st : State) (ev : Event) :
  failedQueue st ++ Spec.pushed (snd (step JSON_stringify st ev))
  = Spec.settled (snd (step JSON_stringify st ev))
    ++ failedQueue (fst (step JSON_stringify st ev)).
Proof.
  assert (Hfail : forall now r e st0,
            failedQueue st0 ++ Spec.pushed (snd (refresh_failed now r e st0))
            = Spec.settled (snd (refresh_failed now r e st0))
              ++ failedQueue (fst (refresh_failed now r e st0))).
  { intros now r e st0.
    destruct (refresh_failed_spec now r e st0) as (-> & _ & -> & _).
    unfold Spec.pushed, Spec.settled. rewrite !flat_map_app. simpl.
    rewrite !flat_map_no_effect by reflexivity.
    rewrite !flat_map_no_effect2 by reflexivity.
    rewrite !app_nil_r. clear. induction (failedQueue st0) as [|q l IH]; simpl; congruence. }
  assert (Hok : forall now r d st0,
            failedQueue st0 ++ Spec.pushed (snd (refresh_succeeded JSON_stringify now r d st0))
            = Spec.settled (snd (refresh_succeeded JSON_stringify now r d st0))
              ++ failedQueue (fst (refresh_succeeded JSON_stringify now r d st0))).
  { intros now r d st0.
    destruct (refresh_succeeded_spec now r d st0) as (-> & _ & -> & _).
    unfold Spec.pushed, Spec.settled. rewrite !flat_map_app. simpl.
    rewrite !flat_map_no_effect by reflexivity.
    rewrite !app_nil_r. clear. induction (failedQueue st0) as [|q l IH]; simpl; congruence. }
  destruct ev as [now error|now k outcome|key value|key]; simpl.
  - unfold onRejected.
    destruct (response error) as [resp|]; [|simpl; rewrite app_nil_r; reflexivity].
    destruct ((status resp =? 401)%Z && negb (_retry (config error)));
      [|simpl; rewrite app_nil_r; reflexivity].
    destruct (isRefreshing st); [reflexivity|].
    destruct (truthy (localStorage st !! "token")); [simpl; rewrite app_nil_r; reflexivity|].
    match goal with
    | |- context [refresh_failed ?n ?r ?e ?s] =>
        specialize (Hfail n r e s); destruct (refresh_failed n r e s) as [st2 effs]
    end.
    simpl in *. exact Hfail.
  - destruct (awaiting st !! k) as [r|] eqn:Hk.
    + rewrite (onRefreshSettled_unfold now k outcome st r Hk). cbv zeta.
      destruct outcome as [[data|]|e].
      * match goal with
        | |- context [refresh_succeeded _ _ _ _ ?s] => exact (Hok now r data s)
        end.
      * match goal with
        | |- context [refresh_failed _ _ _ ?s] => exact (Hfail now r TypeErrorExn s)
        end.
      * match goal with
        | |- context [refresh_failed _ _ _ ?s] => exact (Hfail now r (AxiosExn e) s)
        end.
    + unfold onRefreshSettled. rewrite Hk. simpl. rewrite app_nil_r. reflexivity.
  - rewrite app_nil_r. reflexivity.
  - rewrite app_nil_r. reflexivity.
Qed.

(** A refresh request is issued only by a step that starts from a state
    with no refresh in flight, and by that step only once. *)
Lemma step_refresh_post (st : State) (ev : Event) :
  Spec.refresh_posts (snd (step JSON_stringify st ev)) <> [] ->
  isRefreshing st = false
  /\ length (Spec.refresh_posts (snd (step JSON_stringify st ev))) = 1%nat
  /\ isRefreshing (fst (step JSON_stringify st ev)) = true
  /\ exists r, awaiting (fst (step JSON_stringify st ev)) = awaiting st ++ [r].
Proof.
  assert (Hfail : forall now r e st0,
            Spec.refresh_posts (snd (refresh_failed now r e st0)) = []).
  { intros now r e st0.
    destruct (refresh_failed_spec now r e st0) as (-> & _).
    unfold Spec.refresh_posts. rewrite !flat_map_app. simpl.
    rewrite flat_map_no_effect by reflexivity.
    rewrite flat_map_no_effect2 by reflexivity. reflexivity. }
  assert (Hok : forall now r d st0,
            Spec.refresh_posts (snd (refresh_succeeded JSON_stringify now r d st0)) = []).
  { intros now r d st0.
    destruct (refresh_succeeded_spec now r d st0) as (-> & _).
    unfold Spec.refresh_posts. rewrite !flat_map_app. simpl.
    rewrite !flat_map_no_effect by reflexivity. reflexivity. }
  destruct ev as [now error|now k outcome|key value|key]; simpl; try congruence.
  - unfold onRejected.
    destruct (response error) as [resp|]; [|simpl; congruence].
    destruct ((status resp =? 401)%Z && negb (_retry (config error)));
      [|simpl; congruence].
    destruct (isRefreshing st); [simpl; congruence|].
    destruct (truthy (localStorage st !! "token")).
    + simpl. intros _. eauto.
    + match goal with
      | |- context [refresh_failed ?n ?r ?e ?s] =>
          specialize (Hfail n r e s); destruct (refresh_failed n r e s) as [st2 effs]
      end.
      simpl in *. congruence.
  - destruct (awaiting st !! k) as [r|] eqn:Hk.
    + rewrite (onRefreshSettled_unfold now k outcome st r Hk). cbv zeta.
      destruct outcome as [[data|]|e]; rewrite ?Hok, ?Hfail; congruence.
    + unfold onRefreshSettled. rewrite Hk. simpl. congruence.
Qed.

(** ** The single-flight invariant *)

Lemma step_single_flight (st : State) (ev : Event) :
  Spec.single_flight st -> Spec.single_flight (fst (step JSON_stringify st ev)).
Proof.
  intros Hinv.
  destruct ev as [now error|now k outcome|key value|key]; simpl; try exact Hinv.
  - unfold onRejected.
    destruct (response error) as [resp|]; [|exact Hinv].
    destruct ((status resp =? 401)%Z && negb (_retry (config error))); [|exact Hinv].
    destruct (isRefreshing st) eqn:Hflag.
    + destruct Hinv as [[_ Hlen]|[Hf _]]; [|congruence].
      left. simpl. auto.
    + destruct Hinv as [[Hf _]|(_ & Haw & Hq)]; [congruence|].
      destruct (truthy (localStorage st !! "token")).
      * left. simpl. rewrite Haw. auto.
      * match goal with
        | |- context [refresh_failed ?n ?r ?e ?s] =>
            destruct (refresh_failed_spec n r e s) as (_ & H1 & H2 & H3 & _);
            destruct (refresh_failed n r e s) as [st2 effs]
        end.
        simpl in *. right. rewrite H1, H2, H3. auto.
  - destruct (awaiting st !! k) as [r|] eqn:Hk.
    + rewrite (onRefreshSettled_unfold now k outcome st r Hk). cbv zeta.
      assert (Hrest : delete k (awaiting st) = []).
      { destruct Hinv as [[_ Hlen]|(_ & Haw & _)].
        - destruct (awaiting st) as [|a [|b l]]; try discriminate.
          destruct k; [reflexivity | discriminate].
        - rewrite Haw in Hk. discriminate. }
      right.
      destruct outcome as [[data|]|e].
      * destruct (refresh_succeeded_spec now r data
                    {| isRefreshing := isRefreshing st; failedQueue := failedQueue st;
                       localStorage := localStorage st;
                       awaiting := delete k (awaiting st) |})
          as (_ & H1 & H2 & H3 & _).
        rewrite H1, H2, H3. auto.
      * destruct (refresh_failed_spec now r TypeErrorExn
                    {| isRefreshing := isRefreshing st; failedQueue := failedQueue st;
                       localStorage := localStorage st;
                       awaiting := delete k (awaiting st) |})
          as (_ & H1 & H2 & H3 & _).
        rewrite H1, H2, H3. auto.
      * destruct (refresh_failed_spec now r (AxiosExn e)
                    {| isRefreshing := isRefreshing st; failedQueue := failedQueue st;
                       localStorage := localStorage st;
                       awaiting := delete k (awaiting st) |})
          as (_ & H1 & H2 & H3 & _).
        rewrite H1, H2, H3. auto.
    + unfold onRefreshSettled. rewrite Hk. exact Hinv.
Qed.

Lemma run_cons (st : State) (ev : Event) (evs : list Event) :
  run JSON_stringify st (ev :: evs) =
  (fst (run JSON_stringify (fst (step JSON_stringify st ev)) evs),
   snd (step JSON_stringify st ev)
   ++ snd (run JSON_stringify (fst (step JSON_stringify st ev)) evs)).
Proof.
  simpl. destruct (step JSON_stringify st ev) as [st1 effs1]. simpl.
  destruct (run JSON_stringify st1 evs) as [st2 effs2]. reflexivity.
Qed.

Lemma run_single_flight (st : State) (evs : list Event) :
  Spec.single_flight st -> Spec.single_flight (fst (run JSON_stringify st evs)).
Proof.
  revert st. induction evs as [|ev evs IH]; intros st Hinv; [exact Hinv|].
  rewrite run_cons. simpl. apply IH, step_single_flight, Hinv.
Qed.

Lemma initial_single_flight (ls : gmap string string) :
  Spec.single_flight (initial ls).
Proof. right. auto. Qed.

Lemma reachable_single_flight (st : State) :
  Spec.reachable JSON_stringify st -> Spec.single_flight st.
Proof.
  intros (ls & evs & ->). apply run_single_flight, initial_single_flight.
Qed.

Lemma reachable_step (st : State) (ev : Event) :
  Spec.reachable JSON_stringify st ->
  Spec.reachable JSON_stringify (fst (step JSON_stringify st ev)).
Proof.
  intros (ls & evs & ->). exists ls, (evs ++ [ev]).
  generalize (initial ls). induction evs as [|e evs IH]; intros s.
  - simpl. destruct (step JSON_stringify s ev); reflexivity.
  - simpl app. rewrite !run_cons. simpl. apply IH.
Qed.

Lemma run_queue (st : State) (evs : list Event) :
  failedQueue st ++ Spec.pushed (snd (run JSON_stringify st evs))
  = Spec.settled (snd (run JSON_stringify st evs))
    ++ failedQueue (fst (run JSON_stringify st evs)).
Proof.
  revert st. induction evs as [|ev evs IH]; intros st.
  - simpl. rewrite app_nil_r. reflexivity.
  - rewrite run_cons. simpl.
    unfold Spec.pushed, Spec.settled in *. rewrite !flat_map_app.
    rewrite app_assoc. fold (Spec.pushed (snd (step JSON_stringify st ev))).
    rewrite step_queue. rewrite <- !app_assoc. f_equal.
    apply IH.
Qed.

(** ** The claims *)

Lemma settlements_resolved (t : option string) (q : list Request) :
  Spec.settlements (map (fun r => Resolve r t) q) = map (fun r => Resolve r t) q.
Proof. induction q as [|r q IH]; simpl; congruence. Qed.

Lemma settlements_rejected (e : exn) (q : list Request) :
  Spec.settlements (map (fun r => Reject r e) q) = map (fun r => Reject r e) q.
Proof. induction q as [|r q IH]; simpl; congruence. Qed.

Lemma settlements_failed (now : Z) (r : Request) (e : exn) (st : State) :
  Spec.settlements (snd (refresh_failed now r e st))
  = map (fun q => Reject q e) (failedQueue st).
Proof.
  destruct (refresh_failed_spec now r e st) as (-> & _).
  unfold Spec.settlements. rewrite !flat_map_app. simpl.
  rewrite flat_map_no_effect2 by reflexivity. rewrite app_nil_r.
  apply settlements_rejected.
Qed.

Lemma settlements_succeeded (now : Z) (r : Request) (data : RefreshData) (st : State) :
  Spec.settlements (snd (refresh_succeeded JSON_stringify now r data st))
  = map (fun q => Resolve q (Some (access_token data))) (failedQueue st).
Proof.
  destruct (refresh_succeeded_spec now r data st) as (-> & _).
  unfold Spec.settlements. rewrite !flat_map_app. simpl.
  rewrite (flat_map_no_effect _ (fun q => Send _)) by reflexivity.
  rewrite app_nil_r. apply settlements_resolved.
Qed.

Lemma sends_succeeded (now : Z) (r : Request) (data : RefreshData) (st : State) :
  Spec.sends (snd (refresh_succeeded JSON_stringify now r data st))
  = map (set_Authorization ("Bearer " +:+ access_token data)) (r :: failedQueue st).
Proof.
  destruct (refresh_succeeded_spec now r data st) as (-> & _).
  unfold Spec.sends. rewrite !flat_map_app. simpl.
  rewrite (flat_map_no_effect _ (fun q => Resolve _ _)) by reflexivity.
  simpl. f_equal. induction (failedQueue st) as [|q l IH]; simpl; congruence.
Qed.

(** C1, as the code has it. (1) A call that has not been replayed yet
    and fails with 401 while [isRefreshing] is set is appended to
    [failedQueue] and does nothing else: it suspends, and no refresh
    request is issued. (2) In every state the module can reach at most
    one handler waits for a refresh request, and one does exactly when
    [isRefreshing] is set. (3) A step issues a refresh request only from
    a state where none is outstanding, and then only one. (4) When the
    refresh succeeds, the call that started it and every queued call, in
    queue order, are sent again with the [Authorization] header
    [Bearer <the new access token>]. *)
Theorem single_flight_refresh :
  (forall (now : Z) (error : AxiosError) (st : State),
      isRefreshing st = true ->
      response error = Some {| status := 401 |} ->
      _retry (config error) = false ->
      snd (step JSON_stringify st (ResponseError now error)) = [PushQueue (config error)]
      /\ failedQueue (fst (step JSON_stringify st (ResponseError now error)))
         = failedQueue st ++ [config error]
      /\ awaiting (fst (step JSON_stringify st (ResponseError now error))) = awaiting st
      /\ isRefreshing (fst (step JSON_stringify st (ResponseError now error))) = true)
  /\ (forall st : State, Spec.reachable JSON_stringify st ->
        (length (awaiting st) <= 1)%nat
        /\ (isRefreshing st = true <-> length (awaiting st) = 1%nat))
  /\ (forall (st : State) (ev : Event), Spec.reachable JSON_stringify st ->
        Spec.refresh_posts (snd (step JSON_stringify st ev)) <> [] ->
        awaiting st = []
        /\ length (Spec.refresh_posts (snd (step JSON_stringify st ev))) = 1%nat
        /\ length (awaiting (fst (step JSON_stringify st ev))) = 1%nat)
  /\ (forall (now : Z) (k : nat) (data : RefreshData) (st : State) (r : Request),
        awaiting st !! k = Some r ->
        Spec.sends (snd (onRefreshSettled JSON_stringify now k (Fulfilled (Some data)) st))
        = map (set_Authorization ("Bearer " +:+ access_token data)) (r :: failedQueue st)).
Proof.
  split.
  { intros now error st Hflag Hresp Hretry. simpl. unfold onRejected.
    rewrite Hresp, Hretry, Hflag. simpl. auto. }
  split.
  { intros st Hreach. apply reachable_single_flight in Hreach.
    destruct Hreach as [[Hflag Hlen]|(Hflag & Haw & _)].
    - rewrite Hflag, Hlen. split; [lia | tauto].
    - rewrite Hflag, Haw. simpl. split; [lia|]. split; discriminate. }
  split.
  { intros st ev Hreach Hpost.
    destruct (step_refresh_post st ev Hpost) as (Hflag & Hone & _ & r & Haw).
    apply reachable_single_flight in Hreach.
    destruct Hreach as [[Hflag' _]|(_ & Hnone & _)]; [congruence|].
    rewrite Haw, Hnone. auto. }
  intros now k data st r Hk.
  rewrite (onRefreshSettled_unfold now k _ st r Hk). cbv zeta.
  match goal with
  | |- context [refresh_succeeded _ _ _ _ ?s] => exact (sends_succeeded now r data s)
  end.
Qed.

(** C2. (1) [processQueue] settles every entry of the queue once, in
    queue order, each with the same token when there is no error and each
    with the same error otherwise, and leaves the queue empty. (2) When a
    refresh ends, however it ends, the handler that waited for it drains
    the queue this way: with the new access token after a success, with
    the error of the refresh after a failure. (3) Over every run of the
    module, the calls settled so far followed by the calls still queued
    are the calls suspended so far, in the order they were suspended; once
    no refresh is in flight, the calls settled are exactly the calls
    suspended. *)
Theorem fifo_drain :
  (forall (error : option exn) (token : option string) (queue : list Request),
      snd (processQueue error token queue) = []
      /\ Spec.settled (fst (processQueue error token queue)) = queue
      /\ fst (processQueue error token queue)
         = map (fun entry => match error with
                             | Some e => Reject entry e
                             | None => Resolve entry token
                             end) queue)
  /\ (forall (now : Z) (k : nat) (outcome : RefreshOutcome) (st : State) (r : Request),
        awaiting st !! k = Some r ->
        failedQueue (fst (onRefreshSettled JSON_stringify now k outcome st)) = []
        /\ isRefreshing (fst (onRefreshSettled JSON_stringify now k outcome st)) = false
        /\ Spec.settlements (snd (onRefreshSettled JSON_stringify now k outcome st))
           = match outcome with
             | Fulfilled (Some data) =>
                 map (fun q => Resolve q (Some (access_token data))) (failedQueue st)
             | Fulfilled None => map (fun q => Reject q TypeErrorExn) (failedQueue st)
             | Rejected e => map (fun q => Reject q (AxiosExn e)) (failedQueue st)
             end)
  /\ (forall (ls : gmap string string) (evs : list Event),
        Spec.pushed (snd (run JSON_stringify (initial ls) evs))
        = Spec.settled (snd (run JSON_stringify (initial ls) evs))
          ++ failedQueue (fst (run JSON_stringify (initial ls) evs))
        /\ (isRefreshing (fst (run JSON_stringify (initial ls) evs)) = false ->
            Spec.settled (snd (run JSON_stringify (initial ls) evs))
            = Spec.pushed (snd (run JSON_stringify (initial ls) evs)))).
Proof.
  split.
  { intros error token queue.
    destruct (processQueue_settlements error token queue) as (_ & H & _).
    split; [reflexivity|]. split; [exact H | reflexivity]. }
  split.
  { intros now k outcome st r Hk.
    rewrite (onRefreshSettled_unfold now k outcome st r Hk). cbv zeta.
    destruct outcome as [[data|]|e].
    - match goal with
      | |- context [refresh_succeeded _ _ _ _ ?s] =>
          destruct (refresh_succeeded_spec now r data s) as (_ & H1 & H2 & _);
          pose proof (settlements_succeeded now r data s) as H3
      end.
      auto.
    - match goal with
      | |- context [refresh_failed _ _ _ ?s] =>
          destruct (refresh_failed_spec now r TypeErrorExn s) as (_ & H1 & H2 & _);
          pose proof (settlements_failed now r TypeErrorExn s) as H3
      end.
      auto.
    - match goal with
      | |- context [refresh_failed _ _ _ ?s] =>
          destruct (refresh_failed_spec now r (AxiosExn e) s) as (_ & H1 & H2 & _);
          pose proof (settlements_failed now r (AxiosExn e) s) as H3
      end.
      auto. }
  intros ls evs. pose proof (run_queue (initial ls) evs) as Hq. simpl in Hq.
  split; [exact Hq|].
  intros Hflag.
  destruct (run_single_flight (initial ls) evs (initial_single_flight ls))
    as [[Hf _]|(_ & _ & Hempty)]; [congruence|].
  rewrite Hq, Hempty, app_nil_r. reflexivity.
Qed.

(** C4. When the refresh request fails with an error, the handler that
    waited for it does, in this order: it rejects every queued entry, in
    queue order, with that error; it removes [token] and [user] from the
    store; it publishes [auth:logout]; it publishes [api:error]; it
    clears [isRefreshing]; and only then its caller gets the error. The
    rejected calls then report the same error to their callers. After a
    success as well the flag is cleared and the queue is drained. *)
Theorem refresh_failure_cascade (now : Z) (k : nat) (st : State) (r : Request) :
  awaiting st !! k = Some r ->
  (forall e : AxiosError,
      snd (onRefreshSettled JSON_stringify now k (Rejected e) st)
      = map (fun q => Reject q (AxiosExn e)) (failedQueue st)
        ++ [RemoveItem "token"; RemoveItem "user"; DispatchEvent "auth:logout" None;
            DispatchEvent "api:error" (Some "Authentication failed");
            SetRefreshing false; Rethrow r (AxiosExn e)]
        ++ flat_map (fun q => [DispatchEvent "api:error" (Some "Token refresh failed");
                               Rethrow q (AxiosExn e)]) (failedQueue st)
      /\ isRefreshing (fst (onRefreshSettled JSON_stringify now k (Rejected e) st)) = false
      /\ failedQueue (fst (onRefreshSettled JSON_stringify now k (Rejected e) st)) = []
      /\ localStorage (fst (onRefreshSettled JSON_stringify now k (Rejected e) st))
           !! "token" = None
      /\ localStorage (fst (onRefreshSettled JSON_stringify now k (Rejected e) st))
           !! "user" = None)
  /\ (forall data : RefreshData,
        In (SetRefreshing false)
           (snd (onRefreshSettled JSON_stringify now k (Fulfilled (Some data)) st))
        /\ isRefreshing
             (fst (onRefreshSettled JSON_stringify now k (Fulfilled (Some data)) st)) = false
        /\ failedQueue
             (fst (onRefreshSettled JSON_stringify now k (Fulfilled (Some data)) st)) = []
        /\ Spec.settled
             (snd (onRefreshSettled JSON_stringify now k (Fulfilled (Some data)) st))
           = failedQueue st).
Proof.
  intros Hk. split.
  - intros e. rewrite (onRefreshSettled_unfold now k _ st r Hk). cbv zeta.
    match goal with
    | |- context [refresh_failed _ _ _ ?s] =>
        destruct (refresh_failed_spec now r (AxiosExn e) s) as (H0 & H1 & H2 & _ & H3 & H4)
    end.
    auto.
  - intros data. rewrite (onRefreshSettled_unfold now k _ st r Hk). cbv zeta.
    match goal with
    | |- context [refresh_succeeded _ _ _ _ ?s] =>
        destruct (refresh_succeeded_spec now r data s) as (H0 & H1 & H2 & _)
    end.
    split.
    { rewrite H0. apply in_or_app. right. apply in_or_app. right. simpl. auto. }
    split; [exact H1|]. split; [exact H2|].
    rewrite H0. unfold Spec.settled. rewrite !flat_map_app. simpl.
    rewrite (flat_map_no_effect _ (fun q => Send _)) by reflexivity.
    rewrite app_nil_r. clear. simpl. induction (failedQueue st) as [|q l IH]; simpl; congruence.
Qed.

(** A call that carries the mark fails for good: nothing is sent again
    and no refresh is requested. *)
Lemma marked_call_fails_terminally (now : Z) (error : AxiosError) (resp : Response)
  (st : State) :
  response error = Some resp -> _retry (config error) = true ->
  step JSON_stringify st (ResponseError now error)
  = (st, [DispatchEvent "api:error" None; Rethrow (config error) (AxiosExn error)]).
Proof.
  intros Hresp Hretry. simpl. unfold onRejected. rewrite Hresp, Hretry.
  rewrite andb_false_r. reflexivity.
Qed.

(** The call that starts a refresh is marked, and stays marked when it is
    sent again; a call that was queued is sent again unmarked. *)
Lemma replay_marks (now : Z) (k : nat) (data : RefreshData) (st : State) (r : Request) :
  awaiting st !! k = Some r ->
  map _retry (Spec.sends (snd (onRefreshSettled JSON_stringify now k
                                 (Fulfilled (Some data)) st)))
  = _retry r :: map _retry (failedQueue st).
Proof.
  intros Hk. rewrite (onRefreshSettled_unfold now k _ st r Hk). cbv zeta.
  rewrite sends_succeeded. simpl. f_equal.
  rewrite map_map. reflexivity.
Qed.

End Coordinator.

(** ** The claims on concrete runs *)

Lemma single_flight_refresh_witness :
  let st := fst (run Examples.stringify (initial Examples.stale_store)
                   [ResponseError Examples.now (Examples.unauthorized Examples.callA)]) in
  let st' := fst (step Examples.stringify st
                    (ResponseError Examples.now (Examples.unauthorized Examples.callB))) in
  snd (step Examples.stringify st
         (ResponseError Examples.now (Examples.unauthorized Examples.callB)))
  = [PushQueue Examples.callB]
  /\ failedQueue st' = [Examples.callB]
  /\ (length (awaiting st') <= 1)%nat
  /\ Spec.sends (snd (onRefreshSettled Examples.stringify Examples.now 0
                        (Fulfilled (Some Examples.fresh)) st'))
     = [Examples.replayed true Examples.callA; Examples.replayed false Examples.callB].
Proof.
  destruct (single_flight_refresh Examples.stringify) as (Hqueue & Hone & _ & Hsends).
  intros st st'.
  destruct (Hqueue Examples.now (Examples.unauthorized Examples.callB) st)
    as (Heffs & Hq & _); try reflexivity.
  split; [exact Heffs|]. split; [exact Hq|]. split.
  - apply Hone.
    exists Examples.stale_store,
      [ResponseError Examples.now (Examples.unauthorized Examples.callA);
       ResponseError Examples.now (Examples.unauthorized Examples.callB)].
    reflexivity.
  - rewrite (Hsends Examples.now 0%nat Examples.fresh st'
               (set_retry true Examples.callA)); reflexivity.
Defined.

(** C1, as stated, fails. Call A started a refresh and was replayed, so
    it carries the mark; call C then started a second refresh. When the
    replay of A fails with 401 while that refresh is in flight, A is not
    appended to the queue: its failure goes to its caller at once. *)
Lemma replayed_call_is_not_queued :
  let st := fst (run Examples.stringify (initial Examples.stale_store)
                   Examples.second_episode) in
  let error := Examples.unauthorized (Examples.replayed true Examples.callA) in
  In (Send (config error))
     (snd (run Examples.stringify (initial Examples.stale_store) Examples.second_episode))
  /\ isRefreshing st = true
  /\ response error = Some {| status := 401 |}
  /\ snd (step Examples.stringify st (ResponseError Examples.now error))
     = [DispatchEvent "api:error" None; Rethrow (config error) (AxiosExn error)]
  /\ failedQueue (fst (step Examples.stringify st (ResponseError Examples.now error))) = [].
Proof.
  cbv zeta. split.
  - vm_compute. auto 10.
  - repeat split; vm_compute; reflexivity.
Qed.

Lemma fifo_drain_witness :
  let evs := [ResponseError Examples.now (Examples.unauthorized Examples.callA);
              ResponseError Examples.now (Examples.unauthorized Examples.callB);
              ResponseError Examples.now (Examples.unauthorized Examples.callC)] in
  let st := fst (run Examples.stringify (initial Examples.stale_store) evs) in
  failedQueue st = [Examples.callB; Examples.callC]
  /\ Spec.settlements (snd (onRefreshSettled Examples.stringify Examples.now 0
                              (Fulfilled (Some Examples.fresh)) st))
     = [Resolve Examples.callB (Some Examples.token_exp_plus_3600);
        Resolve Examples.callC (Some Examples.token_exp_plus_3600)]
  /\ failedQueue (fst (onRefreshSettled Examples.stringify Examples.now 0
                         (Fulfilled (Some Examples.fresh)) st)) = []
  /\ Spec.settled
       (snd (run Examples.stringify (initial Examples.stale_store)
               (evs ++ [RefreshSettled Examples.now 0 (Fulfilled (Some Examples.fresh))])))
     = [Examples.callB; Examples.callC].
Proof.
  destruct (fifo_drain Examples.stringify) as (_ & Hend & Hrun).
  intros evs st.
  destruct (Hend Examples.now 0%nat (Fulfilled (Some Examples.fresh)) st
              (set_retry true Examples.callA))
    as (Hempty & _ & Hsettle); [reflexivity|].
  split; [reflexivity|]. split; [exact Hsettle|]. split; [exact Hempty|].
  destruct (Hrun Examples.stale_store
              (evs ++ [RefreshSettled Examples.now 0 (Fulfilled (Some Examples.fresh))]))
    as (_ & Hall).
  rewrite Hall; reflexivity.
Defined.

Lemma refresh_failure_cascade_witness :
  let evs := [ResponseError Examples.now (Examples.unauthorized Examples.callA);
              ResponseError Examples.now (Examples.unauthorized Examples.callB)] in
  let st := fst (run Examples.stringify (initial Examples.stale_store) evs) in
  let e := Spec.http_error 500 Examples.callA in
  let st' := fst (onRefreshSettled Examples.stringify Examples.now 0 (Rejected e) st) in
  snd (onRefreshSettled Examples.stringify Examples.now 0 (Rejected e) st)
  = [Reject Examples.callB (AxiosExn e);
     RemoveItem "token"; RemoveItem "user"; DispatchEvent "auth:logout" None;
     DispatchEvent "api:error" (Some "Authentication failed");
     SetRefreshing false; Rethrow (set_retry true Examples.callA) (AxiosExn e);
     DispatchEvent "api:error" (Some "Token refresh failed");
     Rethrow Examples.callB (AxiosExn e)]
  /\ isRefreshing st' = false /\ failedQueue st' = []
  /\ localStorage st' !! "token" = None.
Proof.
  intros evs st e st'.
  destruct (refresh_failure_cascade Examples.stringify Examples.now 0%nat st
              (set_retry true Examples.callA) eq_refl) as (Hfail & _).
  destruct (Hfail e) as (Heffs & Hflag & Hqueue & Htoken & _).
  split; [exact Heffs|]. split; [exact Hflag|]. split; [exact Hqueue | exact Htoken].
Defined.

(** C3: what the code does when a queued call fails again. Call A
    starts a refresh and call B is queued behind it; after the refresh
    both are sent again, A with the mark and B without. The replay of B
    fails with 401: B is not marked, so the interceptor requests a second
    refresh for it and, when that succeeds, sends B a third time. *)
Theorem queued_call_is_replayed_twice :
  let log := snd (run Examples.stringify (initial Examples.stale_store)
                    Examples.queued_call_fails_again) in
  Spec.pushed log = [Examples.callB]
  /\ Spec.sends log
     = [Examples.replayed true Examples.callA;
        Examples.replayed false Examples.callB;
        Examples.replayed true Examples.callB]
  /\ Spec.refresh_posts log
     = ["Bearer " +:+ Examples.token_opaque; "Bearer " +:+ Examples.token_exp_plus_3600].
Proof. vm_compute. auto. Qed.

End CoordinatorFacts.

(* ===================================================================== *)
(** * More on the retry policy *)
(* ===================================================================== *)

Module RetryMore.
Import JS Axios ErrorHandling ErrorReporting.

Section Loop.

Context {T : Type}.
Variable operation : Z -> Outcome T.
Variable random : Z -> Q.
Variable maxRetries : Z.
Variable shouldRetry : AxiosError -> Z -> bool.

(** The delays the loop waits when it makes [n] calls from index [i]. *)
Lemma retry_loop_spec (left : nat) (i : Z) (lastError : option AxiosError) :
  (0 < left)%nat -> (i + Z.of_nat left = maxRetries + 1)%Z ->
  let t := retry_loop operation random maxRetries shouldRetry lastError left i in
  (1 <= calls t)%nat /\ (calls t <= left)%nat
  /\ waits t = map (fun n => getRetryDelay (random (i + Z.of_nat n)) (i + Z.of_nat n))
                   (seq 0 (calls t - 1))
  /\ (forall n, (n < calls t - 1)%nat ->
        exists e, operation (i + Z.of_nat n) = Threw e
                  /\ shouldRetry e (i + Z.of_nat n) = true)
  /\ match result t with
     | Ok v => operation (i + Z.of_nat (calls t - 1)) = Returned v
     | Err (Some e) =>
         operation (i + Z.of_nat (calls t - 1)) = Threw e
         /\ ((i + Z.of_nat (calls t - 1) = maxRetries)%Z
             \/ shouldRetry e (i + Z.of_nat (calls t - 1)) = false)
     | Err None => False
     end.
Proof.
  revert i lastError. induction left as [|left IH]; intros i lastError Hpos Hsum; [lia|].
  simpl. destruct (operation i) as [v|error] eqn:Hop.
  - simpl. rewrite Z.add_0_r. repeat split; auto; try lia; intros n Hn; lia.
  - destruct ((i =? maxRetries)%Z || negb (shouldRetry error i)) eqn:Hstop.
    + simpl. rewrite Z.add_0_r.
      split; [lia|]. split; [lia|]. split; [reflexivity|].
      split; [intros n Hn; lia|]. split; [exact Hop|].
      apply orb_true_iff in Hstop as [H|H]; [left; lia|].
      right. apply negb_true_iff, H.
    + apply orb_false_iff in Hstop as [Hne Hretry].
      apply negb_false_iff in Hretry.
      assert (Hleft : (0 < left)%nat) by lia.
      specialize (IH (i + 1)%Z (Some error) Hleft ltac:(lia)).
      cbv zeta in IH. cbn [calls waits result].
      set (t := retry_loop operation random maxRetries shouldRetry (Some error) left (i + 1)) in *.
      destruct IH as (H1 & H2 & Hw & Hall & Hres).
      split; [lia|]. split; [lia|].
      replace (S (calls t) - 1)%nat with (S (calls t - 1)) by lia.
      split.
      { cbn [seq map]. rewrite Z.add_0_r. f_equal. rewrite Hw, <- seq_shift, map_map.
        apply map_ext. intros n. replace (i + 1 + Z.of_nat n)%Z with (i + Z.of_nat (S n))%Z by lia.
        reflexivity. }
      split.
      { intros [|n] Hn.
        - rewrite Z.add_0_r. eauto.
        - replace (i + Z.of_nat (S n))%Z with (i + 1 + Z.of_nat n)%Z by lia.
          apply Hall. lia. }
      replace (i + Z.of_nat (S (calls t - 1)))%Z with (i + 1 + Z.of_nat (calls t - 1))%Z by lia.
      exact Hres.
Qed.

(** X1. [retryAsync] calls the operation at least once and at most
    [maxRetries + 1] times, and waits once between two calls, the delay
    [getRetryDelay] gives for the index of the call that failed. Every
    call but the last failed with an error the policy accepted. What it
    returns is what the last call returned; what it throws is what the
    last call threw, and then the last call was call number
    [maxRetries + 1] or the policy refused its error. *)
Theorem retryAsync_bounded :
  (0 <= maxRetries)%Z ->
  let t := retryAsync operation random maxRetries shouldRetry in
  (1 <= calls t)%nat /\ (Z.of_nat (calls t) <= maxRetries + 1)%Z
  /\ length (waits t) = (calls t - 1)%nat
  /\ waits t = map (fun n => getRetryDelay (random (Z.of_nat n)) (Z.of_nat n))
                   (seq 0 (calls t - 1))
  /\ (forall n, (n < calls t - 1)%nat ->
        exists e, operation (Z.of_nat n) = Threw e /\ shouldRetry e (Z.of_nat n) = true)
  /\ match result t with
     | Ok v => operation (Z.of_nat (calls t - 1)) = Returned v
     | Err (Some e) =>
         operation (Z.of_nat (calls t - 1)) = Threw e
         /\ (Z.of_nat (calls t) = maxRetries + 1
             \/ shouldRetry e (Z.of_nat (calls t - 1)) = false)%Z
     | Err None => False
     end.
Proof.
  intros Hmax t. subst t. unfold retryAsync.
  destruct (retry_loop_spec (Z.to_nat (maxRetries + 1)) 0 None ltac:(lia) ltac:(lia))
    as (H1 & H2 & Hw & Hall & Hres).
  set (t := retry_loop operation random maxRetries shouldRetry None
              (Z.to_nat (maxRetries + 1)) 0) in *.
  split; [exact H1|]. split; [lia|].
  split; [rewrite Hw, length_map, length_seq; reflexivity|].
  split; [exact Hw|]. split; [exact Hall|].
  destruct (result t) as [v|[e|]]; [exact Hres | | exact Hres].
  destruct Hres as [Hop Hstop]. split; [exact Hop|].
  destruct Hstop as [Hlast|Hno]; [left; lia | right; exact Hno].
Qed.

(** X2. The first call that succeeds ends the loop: when call number [k+1]
    returns [v], every call before it failed with an error the policy
    accepts, and [k <= maxRetries], [retryAsync] returns [v] after
    exactly [k+1] calls. *)
Theorem retryAsync_first_success (k : nat) (v : T) :
  (Z.of_nat k <= maxRetries)%Z ->
  operation (Z.of_nat k) = Returned v ->
  (forall n, (n < k)%nat ->
     exists e, operation (Z.of_nat n) = Threw e /\ shouldRetry e (Z.of_nat n) = true) ->
  let t := retryAsync operation random maxRetries shouldRetry in
  result t = Ok v /\ calls t = S k /\ length (waits t) = k.
Proof.
  intros Hk Hv Hfail. unfold retryAsync.
  assert (Hgen : forall (m : nat) (i : Z) (left : nat) (lastError : option AxiosError),
             (i + Z.of_nat m = Z.of_nat k)%Z -> (m < left)%nat -> (0 <= i)%Z ->
             let t := retry_loop operation random maxRetries shouldRetry lastError left i in
             result t = Ok v /\ calls t = S m /\ length (waits t) = m).
  { induction m as [|m IH]; intros i left lastError Hi Hleft Hi0.
    - destruct left as [|left]; [lia|]. simpl.
      replace i with (Z.of_nat k) by lia. rewrite Hv. auto.
    - destruct left as [|left]; [lia|]. simpl.
      destruct (Hfail (Z.to_nat i) ltac:(lia)) as (e & He & Hretry).
      rewrite Z2Nat.id in He, Hretry by lia. rewrite He, Hretry.
      replace (i =? maxRetries)%Z with false by lia. simpl.
      destruct (IH (i + 1)%Z left (Some e) ltac:(lia) ltac:(lia) ltac:(lia))
        as (Hr & Hc & Hw).
      rewrite Hr, Hc, Hw. auto. }
  apply (Hgen k 0%Z); lia.
Qed.

End Loop.

(** X3. With a negative [maxRetries] the loop body never runs: the operation
    is not called, nothing is waited for, and [retryAsync] throws the
    unassigned [lastError], that is [undefined]. *)
Theorem retryAsync_negative {T : Type} (operation : Z -> Outcome T) (random : Z -> Q)
  (maxRetries : Z) (shouldRetry : AxiosError -> Z -> bool) :
  (maxRetries < 0)%Z ->
  retryAsync operation random maxRetries shouldRetry
  = {| calls := 0; waits := []; result := Err None |}.
Proof.
  intros H. unfold retryAsync.
  replace (Z.to_nat (maxRetries + 1)) with 0%nat by lia. reflexivity.
Qed.

(** ** Delays *)






Lemma retryAsync_negative_witness :
  retryAsync (T := unit) (fun _ => Threw Examples.network_down) (fun _ => 0%Q)
    (-1) shouldRetryError
  = {| calls := 0; waits := []; result := Err None |}.
Proof.
  apply (retryAsync_negative (T := unit) (fun _ => Threw Examples.network_down)
           (fun _ => 0%Q) (-1) shouldRetryError).
  lia.
Defined.

Lemma retryAsync_bounded_witness :
  let t := retryAsync (T := unit) (fun _ => Threw Examples.network_down) (fun _ => 0%Q)
             3 shouldRetryError in
  (1 <= calls t)%nat /\ (Z.of_nat (calls t) <= 3 + 1)%Z
  /\ length (waits t) = (calls t - 1)%nat.
Proof.
  intros t.
  destruct (retryAsync_bounded (T := unit) (fun _ => Threw Examples.network_down)
              (fun _ => 0%Q) 3 shouldRetryError ltac:(lia)) as (H1 & H2 & H3 & _).
  split; [exact H1|]. split; [exact H2 | exact H3].
Defined.

Lemma retryAsync_first_success_witness :
  let operation := fun i : Z => if (i <? 2)%Z then Threw Examples.network_down
                                else Returned 7%nat in
  let t := retryAsync operation (fun _ => 0%Q) 3 shouldRetryError in
  result t = Ok 7%nat /\ calls t = 3%nat /\ length (waits t) = 2%nat.
Proof.
  intros operation t.
  apply (retryAsync_first_success operation (fun _ => 0%Q) 3 shouldRetryError 2 7%nat).
  - lia.
  - reflexivity.
  - intros n Hn. exists Examples.network_down.
    destruct n as [|[|n]]; [split; reflexivity | split; reflexivity | lia].
Defined.

(** ** Messages *)

Lemma nonempty_spec (s : string) : nonempty (Some s) = true <-> s <> "".
Proof.
  simpl. rewrite negb_true_iff. apply String.eqb_neq.
Qed.

(** X6. [getErrorMessage] never returns the empty string. It answers with
    the connection message for every error [isNetworkError] recognises,
    also for a timeout that axios reports as [ECONNABORTED] without a
    response: the time-out message is given only to a time-out that is
    not a network error. A detail sent by the server is shown only when
    the error is neither, and then it goes before the server's message
    and the error's own. Every error that gets the connection message is
    one [shouldRetryError] retries below three attempts. *)
Theorem getErrorMessage_priorities (error : AxiosError) (data : option ResponseData) :
  getErrorMessage error data <> ""
  /\ (isNetworkError error = true ->
      getErrorMessage error data
      = "Unable to connect to the server. Please check your internet connection."
      /\ forall retryCount, (retryCount < 3)%Z -> shouldRetryError error retryCount = true)
  /\ (response error = None -> code error = Some "ECONNABORTED" ->
      isTimeoutError error = true
      /\ getErrorMessage error data
         = "Unable to connect to the server. Please check your internet connection.")
  /\ (isNetworkError error = false -> isTimeoutError error = true ->
      getErrorMessage error data = "The request timed out. Please try again.")
  /\ (forall resp d detail,
        response error = Some resp -> isTimeoutError error = false ->
        data = Some d -> data_detail d = Some detail -> detail <> "" ->
        getErrorMessage error data = detail)
  /\ (response error = None -> isNetworkError error = false ->
      isTimeoutError error = false -> message error <> "" ->
      getErrorMessage error data = message error).
Proof.
  assert (Hnet_retry : isNetworkError error = true ->
            forall retryCount, (retryCount < 3)%Z -> shouldRetryError error retryCount = true).
  { intros Hnet rc Hrc. rewrite RetryFacts.shouldRetryError_below by exact Hrc.
    unfold isNetworkError, has_response in *.
    destruct (response error); [discriminate | exact Hnet]. }
  split.
  { unfold getErrorMessage.
    destruct (isNetworkError error); [discriminate|].
    destruct (isTimeoutError error); [discriminate|].
    set (dt := (if has_response error then data else None) ≫= data_detail).
    set (dm := (if has_response error then data else None) ≫= data_message).
    destruct (nonempty dt) eqn:Hdt.
    { destruct dt as [x|]; [|discriminate]. apply nonempty_spec, Hdt. }
    destruct (nonempty dm) eqn:Hdm.
    { destruct dm as [x|]; [|discriminate]. apply nonempty_spec, Hdm. }
    destruct (nonempty (Some (message error))) eqn:Hm.
    { apply nonempty_spec, Hm. }
    discriminate. }
  split.
  { intros Hnet. split; [|exact (Hnet_retry Hnet)].
    unfold getErrorMessage. rewrite Hnet. reflexivity. }
  split.
  { intros Hresp Hcode.
    assert (Hnet : isNetworkError error = true).
    { unfold isNetworkError, has_response, code_is. rewrite Hresp, Hcode. simpl.
      rewrite !orb_true_r. reflexivity. }
    split.
    - unfold isTimeoutError, code_is. rewrite Hcode. reflexivity.
    - unfold getErrorMessage. rewrite Hnet. reflexivity. }
  split.
  { intros Hnet Htime. unfold getErrorMessage. rewrite Hnet, Htime. reflexivity. }
  split.
  { intros resp d detail Hresp Htime -> Hd Hne.
    unfold getErrorMessage.
    assert (Hnet : isNetworkError error = false).
    { unfold isNetworkError, has_response. rewrite Hresp. reflexivity. }
    rewrite Hnet, Htime. unfold has_response. rewrite Hresp. simpl. rewrite Hd.
    apply nonempty_spec in Hne. rewrite Hne. reflexivity. }
  intros Hresp Hnet Htime Hmsg. unfold getErrorMessage.
  rewrite Hnet, Htime. unfold has_response. rewrite Hresp. simpl.
  apply nonempty_spec in Hmsg. simpl in Hmsg. rewrite Hmsg. reflexivity.
Qed.

Lemma getErrorMessage_priorities_witness :
  let aborted := {| response := None; code := Some "ECONNABORTED";
                    message := "timeout of 30000ms exceeded"; name := "AxiosError";
                    config := Examples.callA |} in
  isTimeoutError aborted = true
  /\ getErrorMessage aborted None
     = "Unable to connect to the server. Please check your internet connection."
  /\ getErrorMessage Examples.timed_out None = "The request timed out. Please try again.".
Proof.
  intros aborted.
  destruct (getErrorMessage_priorities aborted None) as (_ & _ & Haborted & _).
  destruct (getErrorMessage_priorities Examples.timed_out None)
    as (_ & _ & _ & Htimeout & _).
  destruct (Haborted eq_refl eq_refl) as [Ht Hm].
  split; [exact Ht|]. split; [exact Hm|].
  apply Htimeout; reflexivity.
Defined.

(** ** The default policy *)

(** X7. With the default policy a [maxRetries] above 3 buys nothing:
    [shouldRetryError] refuses every error from the fourth call on, so
    [retryAsync] makes at most four calls and waits at most three times
    whatever [maxRetries] is. A first failure with a 4xx status other
    than 408 and 429 ends it after one call, with that error. *)
Theorem default_policy_caps_calls {T : Type} (operation : Z -> Outcome T)
  (random : Z -> Q) (maxRetries : Z) :
  let t := retryAsync operation random maxRetries shouldRetryError in
  (calls t <= 4)%nat /\ (length (waits t) <= 3)%nat
  /\ (forall e resp,
        (0 <= maxRetries)%Z -> operation 0%Z = Threw e -> response e = Some resp ->
        (400 <= status resp < 500)%Z -> status resp <> 408%Z -> status resp <> 429%Z ->
        calls t = 1%nat /\ waits t = [] /\ result t = Err (Some e)).
Proof.
  cbv zeta.
  assert (Hcap : (calls (retryAsync operation random maxRetries shouldRetryError) <= 4)%nat
                 /\ (length (waits (retryAsync operation random maxRetries shouldRetryError))
                     <= 3)%nat).
  { unfold retryAsync. destruct (Z.ltb_spec maxRetries 0) as [Hneg|Hpos].
    - replace (Z.to_nat (maxRetries + 1)) with 0%nat by lia. simpl. lia.
    - destruct (retry_loop_spec operation random maxRetries shouldRetryError
                  (Z.to_nat (maxRetries + 1)) 0 None ltac:(lia) ltac:(lia))
        as (H1 & H2 & Hw & Hall & _).
      set (t := retry_loop operation random maxRetries shouldRetryError None
                  (Z.to_nat (maxRetries + 1)) 0) in *.
      assert (Hfour : (calls t <= 4)%nat).
      { destruct (le_lt_dec (calls t) 4) as [Hle|Hgt]; [exact Hle|].
        destruct (Hall 3%nat ltac:(lia)) as (e & _ & Hretry).
        rewrite RetryFacts.shouldRetryError_exhausted in Hretry by lia. discriminate. }
      split; [exact Hfour|]. rewrite Hw, length_map, length_seq. lia. }
  split; [apply Hcap|]. split; [apply Hcap|].
  intros e resp Hpos Hop Hresp [Hlo Hhi] H408 H429.
  unfold retryAsync.
  destruct (Z.to_nat (maxRetries + 1)) as [|left] eqn:Hleft; [lia|].
  simpl. rewrite Hop.
  assert (Hno : shouldRetryError e 0 = false).
  { unfold shouldRetryError. simpl. rewrite Hresp.
    replace (status resp =? 0)%Z with false by lia.
    replace (status resp >=? 400)%Z with true by lia.
    replace (status resp <? 500)%Z with true by lia.
    simpl. replace (status resp =? 408)%Z with false by lia.
    replace (status resp =? 429)%Z with false by lia. reflexivity. }
  rewrite Hno, orb_true_r. auto.
Qed.

Lemma default_policy_caps_calls_witness :
  let t := retryAsync (T := unit) (fun _ => Threw (Spec.http_error 404 Examples.callA))
             (fun _ => 0%Q) 10 shouldRetryError in
  calls t = 1%nat /\ waits t = [] /\ result t = Err (Some (Spec.http_error 404 Examples.callA)).
Proof.
  intros t.
  destruct (default_policy_caps_calls (T := unit)
              (fun _ => Threw (Spec.http_error 404 Examples.callA)) (fun _ => 0%Q) 10)
    as (_ & _ & Hclient).
  apply (Hclient (Spec.http_error 404 Examples.callA) {| status := 404 |});
    try reflexivity; try lia; try discriminate.
  simpl. lia.
Defined.

End RetryMore.

(* ===================================================================== *)
(** * The provider over time *)
(* ===================================================================== *)

Module ProviderMore.
Import JS NumberFacts ExpiryFacts AuthContext.

(** ** The timer table *)








Section Flows.

Variable JSON_stringify : JsValue -> string.








(** ** Signing out *)

Lemma removed_twice (ls : gmap string string) :
  delete "user" (delete "token" (delete "user" (delete "token" ls)))
  = delete "user" (delete "token" ls).
Proof.
  rewrite (delete_id (delete "user" (delete "token" ls)) "token").
  - apply delete_id, lookup_delete_eq.
  - rewrite lookup_delete_ne by discriminate. apply lookup_delete_eq.
Qed.

(** X9. [logout()] ends the session from any state: no token, no user, the
    timer reference reset, both entries of the store removed and every
    other entry kept, nobody authenticated whatever the clock, the
    pending timeout cleared, and a navigation to [/login] as the last
    effect. A second [logout()] changes nothing and only navigates
    again. *)
Theorem logout_ends_session (st : State) :
  let st' := fst (logout st) in
  let effs := snd (logout st) in
  Observe.anonymous st' /\ refreshTimeoutRef st' = None
  /\ localStorage st' !! "token" = None /\ localStorage st' !! "user" = None
  /\ (forall key, key <> "token" -> key <> "user" ->
        localStorage st' !! key = localStorage st !! key)
  /\ (forall now, isAuthenticated now st' = false)
  /\ (forall h, refreshTimeoutRef st = Some h ->
        In (ClearTimeout h) effs /\ timers st' !! h = None)
  /\ (Spec.tracked st -> timers st' = ∅)
  /\ (exists before, effs = before ++ [Navigate "/login"]
        /\ Spec.armed before = [] /\ Spec.refresh_calls before = 0)
  /\ logout st' = (st', [Navigate "/login"]).
Proof.
  cbv zeta. unfold logout, Observe.anonymous.
  destruct (refreshTimeoutRef st) as [h|] eqn:Href; simpl.
  - split; [auto|]. split; [reflexivity|].
    split; [rewrite lookup_delete_ne by discriminate; apply lookup_delete_eq|].
    split; [apply lookup_delete_eq|].
    split; [intros key H1 H2; rewrite !lookup_delete_ne by congruence; reflexivity|].
    split; [reflexivity|].
    split; [intros h' H; injection H as <-; split; [auto | apply lookup_delete_eq]|].
    split.
    { intros Htr. pose proof (ProviderFacts.cleared_timers st Htr) as H.
      unfold Spec.cleared in H. rewrite Href in H. exact H. }
    split; [exists [ClearTimeout h]; auto|].
    unfold set_session. simpl. rewrite removed_twice. reflexivity.
  - split; [auto|]. split; [exact Href|].
    split; [rewrite lookup_delete_ne by discriminate; apply lookup_delete_eq|].
    split; [apply lookup_delete_eq|].
    split; [intros key H1 H2; rewrite !lookup_delete_ne by congruence; reflexivity|].
    split; [reflexivity|].
    split; [discriminate|].
    split.
    { intros Htr. pose proof (ProviderFacts.cleared_timers st Htr) as H.
      unfold Spec.cleared in H. rewrite Href in H. exact H. }
    split; [exists []; auto|].
    unfold set_session. simpl. rewrite Href. simpl. rewrite removed_twice. reflexivity.
Qed.

(** ** Signing in *)

Lemma scheduleTokenRefresh_session (now : Z) (tok : string) (st : State) :
  let st' := fst (scheduleTokenRefresh now tok st) in
  token st' = token st /\ user st' = user st
  /\ localStorage st' = localStorage st /\ isLoading st' = isLoading st.
Proof.
  rewrite ProviderFacts.scheduleTokenRefresh_unfold. unfold Spec.cleared. cbv zeta.
  destruct (refreshTimeoutRef st); destruct (getTokenExpiration tok) as [x|];
    try destruct (num_truthy x); try destruct (num_gt _ _); simpl; auto.
Qed.

Lemma scheduleTokenRefresh_no_call (now : Z) (tok : string) (st : State) :
  Spec.refresh_calls (snd (scheduleTokenRefresh now tok st)) = 0
  /\ ~ In (Navigate "/login") (snd (scheduleTokenRefresh now tok st)).
Proof.
  rewrite ProviderFacts.scheduleTokenRefresh_unfold. unfold Spec.cleared. cbv zeta.
  destruct (refreshTimeoutRef st); destruct (getTokenExpiration tok) as [x|];
    try destruct (num_truthy x); try destruct (num_gt _ _); simpl;
    (split; [reflexivity | intros H; repeat destruct H as [H|H]; try discriminate; exact H]).
Qed.


Lemma isAuthenticated_undecodable (now : Z) (st : State) (tok : string) :
  token st = Some tok -> Spec.exp_claim tok = None -> isAuthenticated now st = false.
Proof.
  intros Htok Hexp. unfold isAuthenticated. rewrite Htok. simpl default.
  destruct (undecodable_is_expired now tok Hexp) as [_ ->].
  apply andb_false_r.
Qed.

(** X10. [login] and [register]. When the endpoint fails, or answers without
    a body, the function throws that error and the provider and the
    store are as before. When it answers with a token and a user, the
    function returns; both are in the state and in the store, the other
    entries of the store are kept, the call to the endpoint is the first
    effect and the navigation to [/] the last, with no other navigation
    and no call of the refresh endpoint between them. A token the
    decoder cannot read leaves nobody authenticated and no timeout
    pending. [register] ends in the same state as [login]. *)
Theorem sign_in_installs_session (name email password : string) (now : Z)
  (outcome : Api.RefreshOutcome) (st : State) :
  let r := AuthFlows.login JSON_stringify email password now outcome st in
  let st' := snd (fst r) in
  match outcome with
  | Api.Fulfilled (Some data) =>
      fst (fst r) = AuthFlows.Returns
      /\ token st' = Some (Api.access_token data) /\ user st' = Api.user data
      /\ localStorage st' !! "token" = Some (Api.access_token data)
      /\ localStorage st' !! "user" = Some (JSON_stringify (Api.user data))
      /\ (forall key, key <> "token" -> key <> "user" ->
            localStorage st' !! key = localStorage st !! key)
      /\ (exists effs,
            snd r = AuthFlows.CallLogin email password
                    :: map AuthFlows.Provider (effs ++ [Navigate "/"])
            /\ Spec.refresh_calls effs = 0 /\ ~ In (Navigate "/login") effs)
      /\ (Spec.exp_claim (Api.access_token data) = None ->
            (forall now', isAuthenticated now' st' = false)
            /\ (Spec.tracked st -> timers st' = ∅))
  | Api.Fulfilled None =>
      fst (fst r) = AuthFlows.Throws Axios.TypeErrorExn /\ st' = st
      /\ Observe.provider_effects (snd r) = [ConsoleError "Login failed:"]
  | Api.Rejected e =>
      fst (fst r) = AuthFlows.Throws (Axios.AxiosExn e) /\ st' = st
      /\ Observe.provider_effects (snd r) = [ConsoleError "Login failed:"]
  end
  /\ fst (AuthFlows.register JSON_stringify name email password now outcome st) = fst r.
Proof.
  cbv zeta. unfold AuthFlows.login, AuthFlows.register.
  destruct outcome as [[data|]|e]; [|auto|auto].
  set (ls := <["user" := JSON_stringify (Api.user data)]>
               (<["token" := Api.access_token data]> (localStorage st))).
  set (st0 := set_session (Some (Api.access_token data)) (Api.user data) ls st).
  destruct (scheduleTokenRefresh_session now (Api.access_token data) st0)
    as (Htok & Husr & Hls & _).
  destruct (scheduleTokenRefresh_no_call now (Api.access_token data) st0) as [Hcalls Hnav].
  pose proof (ProviderFacts.scheduleTokenRefresh_undecodable now (Api.access_token data) st0)
    as Hund.
  pose proof (ProviderFacts.cleared_timers st0) as Hclr.
  destruct (scheduleTokenRefresh now (Api.access_token data) st0) as [st' effs].
  simpl in *. split; [|reflexivity].
  split; [reflexivity|]. split; [exact Htok|]. split; [exact Husr|].
  rewrite Hls. unfold ls.
  split; [rewrite lookup_insert_ne by discriminate; apply lookup_insert_eq|].
  split; [apply lookup_insert_eq|].
  split; [intros key H1 H2; rewrite !lookup_insert_ne by congruence; reflexivity|].
  split; [exists effs; auto|].
  intros Hexp. split.
  - intros now'. apply (isAuthenticated_undecodable now' st' _ Htok Hexp).
  - intros Htr. destruct (Hund Hexp) as [_ Heq].
    assert (Hst' : st' = fst (Spec.cleared st0)) by (rewrite <- Heq; reflexivity).
    rewrite Hst'. apply Hclr. intros h d H. simpl in *. eauto.
Qed.

(** ** Start-up *)

Lemma logout_effects (st : State) :
  Spec.refresh_calls (snd (logout st)) = 0 /\ Spec.armed (snd (logout st)) = [].
Proof. unfold logout. destruct (refreshTimeoutRef st); auto. Qed.

Lemma logout_clears (st : State) :
  Observe.anonymous (fst (logout st))
  /\ localStorage (fst (logout st)) !! "token" = None
  /\ localStorage (fst (logout st)) !! "user" = None
  /\ In (Navigate "/login") (snd (logout st)).
Proof.
  unfold logout, Observe.anonymous.
  destruct (refreshTimeoutRef st); simpl;
    (split; [auto|]);
    (split; [rewrite lookup_delete_ne by discriminate; apply lookup_delete_eq|]);
    (split; [apply lookup_delete_eq|]); auto.
Qed.

(** X11. [initializeAuth] on a provider that has just mounted, with a clock
    that does not run backwards. It always ends with [isLoading] false
    and never calls the refresh endpoint. Either it restores the session
    from the store, which it leaves as it is, and then the stored token
    and user are present, are not the texts [undefined] or [null], the
    token is not expired and the user is the parsed stored text; or
    nobody is signed in, no timeout is armed, the store holds no usable
    token or user afterwards, and its other entries are kept. *)
Theorem startup_outcomes (now0 now1 now2 : Z) (outcome : Api.RefreshOutcome)
  (ls : gmap string string) :
  (now0 <= now1)%Z ->
  let st' := fst (initializeAuth JSON_stringify now0 now1 now2 outcome (mounted ls)) in
  let effs := snd (initializeAuth JSON_stringify now0 now1 now2 outcome (mounted ls)) in
  isLoading st' = false
  /\ Spec.refresh_calls effs = 0
  /\ ((exists tok usr parsed,
         ls !! "token" = Some tok /\ ls !! "user" = Some usr
         /\ isValid (Some tok) = true /\ isValid (Some usr) = true
         /\ isTokenExpired now0 tok = false /\ JSON_parse usr = Some parsed
         /\ token st' = Some tok /\ user st' = parsed /\ localStorage st' = ls)
      \/ (Observe.anonymous st'
          /\ truthy (localStorage st' !! "token") = false
          /\ truthy (localStorage st' !! "user") = false
          /\ (forall key, key <> "token" -> key <> "user" ->
                localStorage st' !! key = ls !! key)
          /\ Spec.armed effs = [])).
Proof.
  intros Hle. cbv zeta. unfold initializeAuth.
  change (localStorage (mounted ls)) with ls.
  assert (Hrm : forall m : gmap string string,
             truthy (delete "user" (delete "token" m) !! "token") = false
             /\ truthy (delete "user" (delete "token" m) !! "user") = false
             /\ (forall key, key <> "token" -> key <> "user" ->
                   delete "user" (delete "token" m) !! key = m !! key)).
  { intros m. rewrite lookup_delete_ne by discriminate. rewrite !lookup_delete_eq.
    split; [reflexivity|]. split; [reflexivity|].
    intros key H1 H2. rewrite !lookup_delete_ne by congruence. reflexivity. }
  destruct (isValid (ls !! "token") && isValid (ls !! "user")) eqn:Hvalid.
  - apply andb_true_iff in Hvalid as [Hvt Hvu].
    destruct (ls !! "token") as [tok|] eqn:Htok; [|discriminate].
    destruct (ls !! "user") as [usr|] eqn:Husr; [|discriminate].
    simpl default.
    destruct (isTokenExpired now0 tok) eqn:Hexpired.
    + rewrite (ProviderFacts.refreshToken_expired JSON_stringify now1 now2 outcome
                 (mounted ls) tok Htok (isTokenExpired_mono now0 now1 tok Hle Hexpired)).
      simpl. split; [reflexivity|]. split; [reflexivity|]. right.
      destruct (Hrm ls) as (H1 & H2 & H3). unfold Observe.anonymous. simpl. auto.
    + destruct (JSON_parse usr) as [parsed|] eqn:Hparse.
      * match goal with
        | |- context [scheduleTokenRefresh ?n ?t ?s] =>
            destruct (scheduleTokenRefresh_session n t s) as (H1 & H2 & H3 & _);
            destruct (scheduleTokenRefresh_no_call n t s) as [H4 _];
            destruct (scheduleTokenRefresh n t s) as [st' effs]
        end.
        simpl in *. split; [reflexivity|]. split; [exact H4|]. left.
        exists tok, usr, parsed. auto 10.
      * simpl. split; [reflexivity|]. split; [reflexivity|]. right.
        destruct (Hrm ls) as (H1 & H2 & H3). unfold Observe.anonymous. simpl. auto.
  - destruct (truthy (ls !! "token") || truthy (ls !! "user")) eqn:Hany.
    + simpl. split; [reflexivity|]. split; [reflexivity|]. right.
      destruct (Hrm ls) as (H1 & H2 & H3). unfold Observe.anonymous. simpl. auto.
    + apply orb_false_iff in Hany as [H1 H2].
      simpl. split; [reflexivity|]. split; [reflexivity|]. right.
      unfold Observe.anonymous. simpl. auto.
Qed.

(** ** [refreshToken] *)

(** X12. [refreshToken()] calls the endpoint exactly when the store holds a
    non-empty token that is not expired, and then once; otherwise it
    returns [false] and touches nothing. It returns [true] exactly when
    it made the call and the endpoint answered with a body, and then the
    new token and user are in the state and in the store. When the call
    fails, the session is logged out: nobody signed in, both entries of
    the store removed, a navigation to [/login]. Resuming the function
    after its [await] in the state it was called in gives the same
    result. *)
Theorem refreshToken_result (now1 now2 : Z) (outcome : Api.RefreshOutcome) (st : State) :
  let r := refreshToken JSON_stringify now1 now2 outcome st in
  let st' := snd (fst r) in
  let called := AuthFlows.refreshToken_calls now1 st in
  Spec.refresh_calls (snd r) = (if called then 1 else 0)
  /\ (called = false -> r = (false, st, []))
  /\ (fst (fst r) = true <->
      called = true /\ exists data, outcome = Api.Fulfilled (Some data))
  /\ (forall data, called = true -> outcome = Api.Fulfilled (Some data) ->
        token st' = Some (Api.access_token data) /\ user st' = Api.user data
        /\ localStorage st' !! "token" = Some (Api.access_token data)
        /\ localStorage st' !! "user" = Some (JSON_stringify (Api.user data)))
  /\ (called = true -> fst (fst r) = false ->
        Observe.anonymous st'
        /\ localStorage st' !! "token" = None /\ localStorage st' !! "user" = None
        /\ In (Navigate "/login") (snd r) /\ Spec.armed (snd r) = [])
  /\ (called = true ->
        r = let '(b, st2, effs) :=
              AuthFlows.refreshToken_answered JSON_stringify now2 outcome st in
            (b, st2, CallRefresh :: effs)).
Proof.
  cbv zeta. unfold refreshToken, AuthFlows.refreshToken_calls, AuthFlows.refreshToken_answered.
  destruct (negb (truthy (localStorage st !! "token"))
            || isTokenExpired now1 (default "" (localStorage st !! "token"))); simpl.
  { split; [reflexivity|]. split; [reflexivity|].
    split; [split; [discriminate | intros [H _]; discriminate]|].
    split; [discriminate|]. split; discriminate. }
  destruct outcome as [[data|]|e].
  - set (ls := <["user" := JSON_stringify (Api.user data)]>
                 (<["token" := Api.access_token data]> (localStorage st))).
    set (st0 := set_session (Some (Api.access_token data)) (Api.user data) ls st).
    destruct (scheduleTokenRefresh_session now2 (Api.access_token data) st0)
      as (Htok & Husr & Hls & _).
    destruct (scheduleTokenRefresh_no_call now2 (Api.access_token data) st0) as [Hcalls _].
    destruct (scheduleTokenRefresh now2 (Api.access_token data) st0) as [st' effs].
    simpl in *. split; [unfold Spec.refresh_calls in *; simpl; rewrite Hcalls; reflexivity|].
    split; [discriminate|]. split; [split; eauto|].
    split.
    { intros data' _ Heq. injection Heq as <-. rewrite Hls. unfold ls.
      split; [exact Htok|]. split; [exact Husr|].
      split; [rewrite lookup_insert_ne by discriminate; apply lookup_insert_eq|].
      apply lookup_insert_eq. }
    split; [discriminate | reflexivity].
  - destruct (logout_effects st) as [Hc Ha].
    destruct (logout_clears st) as (Hanon & Ht & Hu & Hnav).
    destruct (logout st) as [st' effs]. simpl in *.
    split; [unfold Spec.refresh_calls in *; simpl; rewrite Hc; reflexivity|].
    split; [discriminate|].
    split; [split; [discriminate | intros [_ [data H]]; discriminate]|].
    split; [discriminate|].
    split; [|reflexivity].
    intros _ _. split; [exact Hanon|]. split; [exact Ht|]. split; [exact Hu|].
    split; [|exact Ha].
    right. right. exact Hnav.
  - destruct (logout_effects st) as [Hc Ha].
    destruct (logout_clears st) as (Hanon & Ht & Hu & Hnav).
    destruct (logout st) as [st' effs]. simpl in *.
    split; [unfold Spec.refresh_calls in *; simpl; rewrite Hc; reflexivity|].
    split; [discriminate|].
    split; [split; [discriminate | intros [_ [data H]]; discriminate]|].
    split; [discriminate|].
    split; [|reflexivity].
    intros _ _. split; [exact Hanon|]. split; [exact Ht|]. split; [exact Hu|].
    split; [|exact Ha].
    right. right. exact Hnav.
Qed.

End Flows.

(** ** Expiry and the timer *)






(** X15. Time only takes authentication away: with the state unchanged, a
    provider that is authenticated at some clock was authenticated at
    every earlier clock, and a request to which the interceptor attaches
    the stored token at some clock gets the same header at every earlier
    one. *)
Theorem authentication_only_lapses (now now' : Z) (st : State)
  (ls : gmap string string) (config : Axios.Request) :
  (now <= now')%Z ->
  (isAuthenticated now' st = true -> isAuthenticated now st = true)
  /\ (Api.requestInterceptor now' ls config <> config ->
      Api.requestInterceptor now ls config = Api.requestInterceptor now' ls config).
Proof.
  intros Hle. split.
  - unfold isAuthenticated. intros H.
    apply andb_true_iff in H as [H Hv]. rewrite H. simpl.
    destruct (isTokenExpired now (default "" (token st))) eqn:Hexpired; [|reflexivity].
    apply (isTokenExpired_mono now now' _ Hle) in Hexpired.
    rewrite Hexpired in Hv. discriminate.
  - unfold Api.requestInterceptor. intros Hchanged.
    destruct (Api.truthy (ls !! "token")) eqn:Htruthy; [|reflexivity]. simpl in *.
    change Api.isTokenExpired with isTokenExpired in *.
    destruct (isTokenExpired now' (default "" (ls !! "token"))) eqn:Hlater;
      [contradiction|].
    destruct (isTokenExpired now (default "" (ls !! "token"))) eqn:Hexpired;
      [|reflexivity].
    apply (isTokenExpired_mono now now' _ Hle) in Hexpired. congruence.
Qed.

Lemma authentication_only_lapses_witness :
  let st := set_session (Some Examples.token_exp_plus_600) Examples.profile ∅ (mounted ∅) in
  isAuthenticated Examples.now st = true.
Proof.
  intros st.
  destruct (authentication_only_lapses Examples.now (Examples.now + 1000) st ∅
              Examples.callA ltac:(unfold Examples.now; lia)) as [H _].
  apply H. vm_compute. reflexivity.
Defined.

Lemma startup_outcomes_witness :
  let r := initializeAuth Examples.stringify Examples.now Examples.now Examples.now
             (Api.Fulfilled (Some Examples.fresh)) (mounted Examples.stale_store) in
  isLoading (fst r) = false /\ Spec.refresh_calls (snd r) = 0.
Proof.
  intros r.
  destruct (startup_outcomes Examples.stringify Examples.now Examples.now Examples.now
              (Api.Fulfilled (Some Examples.fresh)) Examples.stale_store ltac:(lia))
    as (Hloading & Hcalls & _).
  split; [exact Hloading | exact Hcalls].
Defined.

End ProviderMore.

(* ===================================================================== *)
(** * More on the interceptors *)
(* ===================================================================== *)

Module ApiMore.
Import JS Axios Api ExpiryFacts CoordinatorFacts.

(** ** What the two ends of a refresh do *)

Lemma rejections_effects (e : exn) (q : list Request) :
  let settle := map (fun r => Reject r e) q in
  let react := flat_map (fun r => [DispatchEvent "api:error" (Some "Token refresh failed");
                                   Rethrow r e]) q in
  Observe.rethrown settle = [] /\ Observe.rethrown react = map (fun r => (r, e)) q
  /\ (forall type, Observe.dispatched type settle = [])
  /\ length (Observe.dispatched "api:error" react) = length q
  /\ Observe.dispatched "network:error" react = []
  /\ Spec.sends settle = [] /\ Spec.sends react = []
  /\ Observe.written settle = [] /\ Observe.written react = [].
Proof.
  induction q as [|r q (H1 & H2 & H3 & H4 & H5 & H6 & H7 & H8 & H9)]; simpl; [auto 10|].
  simpl in *. rewrite H2, H4. auto 10.
Qed.

Lemma failed_effects (now : Z) (r : Request) (e : exn) (st : State) :
  let effs := snd (refresh_failed now r e st) in
  Observe.rethrown effs = (r, e) :: map (fun q => (q, e)) (failedQueue st)
  /\ length (Observe.dispatched "api:error" effs) = S (length (failedQueue st))
  /\ Observe.dispatched "network:error" effs = []
  /\ Spec.sends effs = []
  /\ Observe.written effs = ["token"; "user"].
Proof.
  cbv zeta. destruct (refresh_failed_spec now r e st) as (-> & _).
  destruct (rejections_effects e (failedQueue st))
    as (H1 & H2 & H3 & H4 & H5 & H6 & H7 & H8 & H9).
  cbv zeta in *.
  unfold Observe.rethrown, Observe.dispatched, Spec.sends, Observe.written in *.
  rewrite !flat_map_app, ?length_app.
  rewrite H1, H2, (H3 "api:error"), (H3 "network:error"), H4, H5, H6, H7, H8, H9.
  simpl. auto.
Qed.

Lemma resolutions_effects (bearer : string) (token : option string) (q : list Request) :
  let settle := map (fun r => Resolve r token) q in
  let replay := map (fun r => Send (set_Authorization bearer r)) q in
  Observe.rethrown settle = [] /\ Observe.rethrown replay = []
  /\ (forall type, Observe.dispatched type settle = [])
  /\ (forall type, Observe.dispatched type replay = [])
  /\ Spec.sends settle = [] /\ length (Spec.sends replay) = length q
  /\ Observe.written settle = [] /\ Observe.written replay = [].
Proof.
  induction q as [|r q (H1 & H2 & H3 & H4 & H5 & H6 & H7 & H8)]; simpl; [auto 10|].
  simpl in *. rewrite H6. auto 10.
Qed.

Section Interceptors.

Variable JSON_stringify : JsValue -> string.

Lemma succeeded_effects (now : Z) (r : Request) (data : RefreshData) (st : State) :
  let effs := snd (refresh_succeeded JSON_stringify now r data st) in
  Observe.rethrown effs = []
  /\ (forall type, Observe.dispatched type effs = [])
  /\ length (Spec.sends effs) = S (length (failedQueue st))
  /\ Observe.written effs = ["token"; "user"].
Proof.
  cbv zeta. destruct (refresh_succeeded_spec JSON_stringify now r data st) as (-> & _).
  destruct (resolutions_effects ("Bearer " +:+ access_token data)
              (Some (access_token data)) (failedQueue st))
    as (H1 & H2 & H3 & H4 & H5 & H6 & H7 & H8).
  cbv zeta in *.
  unfold Observe.rethrown, Observe.dispatched, Spec.sends, Observe.written in *.
  split; [rewrite !flat_map_app, H1, H2; reflexivity|].
  split; [intros type; rewrite !flat_map_app, (H3 type), (H4 type); reflexivity|].
  split; [rewrite !flat_map_app, !length_app, H5, H6; reflexivity|].
  rewrite !flat_map_app, H7, H8. reflexivity.
Qed.

(** ** Accounting *)



(** ** Failures the interceptor passes on *)

Lemma terminal_step (st : State) (ev : Event) :
  Observe.terminal ev = true ->
  let r := step JSON_stringify st ev in
  fst r = st
  /\ Observe.rethrown (snd r) = Observe.failed_calls [ev]
  /\ Spec.sends (snd r) = [] /\ Spec.refresh_posts (snd r) = []
  /\ Spec.pushed (snd r) = [] /\ Observe.written (snd r) = []
  /\ Observe.dispatched "auth:logout" (snd r) = [].
Proof.
  destruct ev as [now error|now k outcome|key value|key]; try discriminate.
  simpl. unfold onRejected.
  destruct (response error) as [resp|]; [|intros _; simpl; auto 10].
  intros H. apply negb_true_iff in H. rewrite H. simpl. auto 10.
Qed.

(** X17. A run in which every failure is one the interceptor does not try to
    recover from (no response, a status other than 401, or a call that
    carries the [_retry] mark) leaves the module as it was: each failure
    goes to its own caller with its own error, in order, and nothing is
    sent again, no refresh is requested, no call is queued, the store is
    not written and no logout is published. *)
Theorem terminal_failures_pass_through (st : State) (evs : list Event) :
  forallb Observe.terminal evs = true ->
  let r := run JSON_stringify st evs in
  fst r = st
  /\ Observe.rethrown (snd r) = Observe.failed_calls evs
  /\ Spec.sends (snd r) = [] /\ Spec.refresh_posts (snd r) = []
  /\ Spec.pushed (snd r) = [] /\ Observe.written (snd r) = []
  /\ Observe.dispatched "auth:logout" (snd r) = [].
Proof.
  cbv zeta. induction evs as [|ev evs IH]; intros Hall; [simpl; auto 10|].
  simpl in Hall. apply andb_true_iff in Hall as [Hev Hall].
  destruct (terminal_step st ev Hev) as (H1 & H2 & H3 & H4 & H5 & H6 & H7).
  destruct (IH Hall) as (I1 & I2 & I3 & I4 & I5 & I6 & I7).
  rewrite (run_cons JSON_stringify). cbn [fst snd]. rewrite H1.
  change (ev :: evs) with ([ev] ++ evs).
  unfold Observe.rethrown, Observe.failed_calls, Spec.sends, Spec.refresh_posts,
    Spec.pushed, Observe.written, Observe.dispatched in *.
  rewrite !flat_map_app, H2, H3, H4, H5, H6, H7, I2, I3, I4, I5, I6, I7.
  auto 10.
Qed.

(** ** The store *)

Lemma step_store (st : State) (ev : Event) (key : string) :
  Observe.own_event ev = true ->
  Forall (fun k => k = "token" \/ k = "user") (Observe.written (snd (step JSON_stringify st ev)))
  /\ (key <> "token" -> key <> "user" ->
      localStorage (fst (step JSON_stringify st ev)) !! key = localStorage st !! key).
Proof.
  assert (Hcred : Forall (fun k => k = "token" \/ k = "user") ["token"; "user"]).
  { constructor; [left; reflexivity|]. constructor; [right; reflexivity|]. constructor. }
  assert (Hfail : forall now r e st0,
             Forall (fun k => k = "token" \/ k = "user")
               (Observe.written (snd (refresh_failed now r e st0)))
             /\ (key <> "token" -> key <> "user" ->
                 localStorage (fst (refresh_failed now r e st0)) !! key
                 = localStorage st0 !! key)).
  { intros now r e st0. destruct (failed_effects now r e st0) as (_ & _ & _ & _ & ->).
    split; [exact Hcred|]. intros H1 H2. simpl.
    rewrite !lookup_delete_ne by congruence. reflexivity. }
  assert (Hok : forall now r d st0,
             Forall (fun k => k = "token" \/ k = "user")
               (Observe.written (snd (refresh_succeeded JSON_stringify now r d st0)))
             /\ (key <> "token" -> key <> "user" ->
                 localStorage (fst (refresh_succeeded JSON_stringify now r d st0)) !! key
                 = localStorage st0 !! key)).
  { intros now r d st0. destruct (succeeded_effects now r d st0) as (_ & _ & _ & ->).
    split; [exact Hcred|]. intros H1 H2. simpl.
    rewrite !lookup_insert_ne by congruence. reflexivity. }
  destruct ev as [now error|now k outcome|k v|k]; try discriminate; intros _; simpl.
  - unfold onRejected.
    destruct (response error) as [resp|]; [|split; [constructor | reflexivity]].
    destruct ((status resp =? 401)%Z && negb (_retry (config error)));
      [|split; [constructor | reflexivity]].
    destruct (isRefreshing st); [split; [constructor | reflexivity]|].
    destruct (truthy (localStorage st !! "token")); [split; [constructor | reflexivity]|].
    match goal with
    | |- context [refresh_failed ?n ?r ?e ?s] =>
        destruct (Hfail n r e s) as [H1 H2]; destruct (refresh_failed n r e s) as [st2 effs]
    end.
    simpl in *. split; [exact H1 | exact H2].
  - destruct (awaiting st !! k) as [r|] eqn:Hk.
    + rewrite (onRefreshSettled_unfold JSON_stringify now k outcome st r Hk). cbv zeta.
      destruct outcome as [[data|]|e].
      * match goal with
        | |- context [refresh_succeeded _ ?n ?r ?d ?s] => exact (Hok n r d s)
        end.
      * match goal with
        | |- context [refresh_failed ?n ?r ?e ?s] => exact (Hfail n r e s)
        end.
      * match goal with
        | |- context [refresh_failed ?n ?r ?e ?s] => exact (Hfail n r e s)
        end.
    + unfold onRefreshSettled. rewrite Hk. split; [constructor | reflexivity].
Qed.

(** X18. The interceptor writes and removes no entry of the store other than
    [token] and [user]: over every run of its own events, every other
    entry is as it was. *)
Theorem interceptor_writes_only_credentials (st : State) (evs : list Event) (key : string) :
  forallb Observe.own_event evs = true ->
  let r := run JSON_stringify st evs in
  Forall (fun k => k = "token" \/ k = "user") (Observe.written (snd r))
  /\ (key <> "token" -> key <> "user" ->
      localStorage (fst r) !! key = localStorage st !! key).
Proof.
  cbv zeta. revert st. induction evs as [|ev evs IH]; intros st Hall.
  - simpl. split; [constructor | reflexivity].
  - simpl in Hall. apply andb_true_iff in Hall as [Hev Hall].
    destruct (step_store st ev key Hev) as [H1 H2].
    destruct (IH (fst (step JSON_stringify st ev)) Hall) as [I1 I2].
    rewrite (run_cons JSON_stringify). cbn [fst snd].
    split.
    + unfold Observe.written in *. rewrite flat_map_app. apply Forall_app. auto.
    + intros Hk1 Hk2. rewrite I2, H2 by assumption. reflexivity.
Qed.

(** ** The mark *)

Lemma step_marked (st : State) (ev : Event) :
  Observe.marked st -> Observe.marked (fst (step JSON_stringify st ev)).
Proof.
  unfold Observe.marked. intros Hinv.
  destruct ev as [now error|now k outcome|key value|key]; simpl; try exact Hinv.
  - unfold onRejected.
    destruct (response error) as [resp|]; [|exact Hinv].
    destruct ((status resp =? 401)%Z && negb (_retry (config error))); [|exact Hinv].
    destruct (isRefreshing st); [exact Hinv|].
    destruct (truthy (localStorage st !! "token")).
    + simpl. apply Forall_app. split; [exact Hinv|]. constructor; [reflexivity|constructor].
    + match goal with
      | |- context [refresh_failed ?n ?r ?e ?s] =>
          destruct (refresh_failed_spec n r e s) as (_ & _ & _ & H3 & _);
          destruct (refresh_failed n r e s) as [st2 effs]
      end.
      simpl in *. rewrite H3. exact Hinv.
  - destruct (awaiting st !! k) as [r|] eqn:Hk.
    + rewrite (onRefreshSettled_unfold JSON_stringify now k outcome st r Hk). cbv zeta.
      destruct outcome as [[data|]|e].
      * match goal with
        | |- context [refresh_succeeded _ ?n ?r ?d ?s] =>
            destruct (refresh_succeeded_spec JSON_stringify n r d s) as (_ & _ & _ & H3 & _)
        end.
        rewrite H3. simpl. apply Forall_delete, Hinv.
      * match goal with
        | |- context [refresh_failed ?n ?r ?e ?s] =>
            destruct (refresh_failed_spec n r e s) as (_ & _ & _ & H3 & _)
        end.
        rewrite H3. simpl. apply Forall_delete, Hinv.
      * match goal with
        | |- context [refresh_failed ?n ?r ?e ?s] =>
            destruct (refresh_failed_spec n r e s) as (_ & _ & _ & H3 & _)
        end.
        rewrite H3. simpl. apply Forall_delete, Hinv.
    + unfold onRefreshSettled. rewrite Hk. exact Hinv.
Qed.

Lemma reachable_marked (st : State) :
  Spec.reachable JSON_stringify st -> Observe.marked st.
Proof.
  intros (ls & evs & ->).
  assert (H : forall s, Observe.marked s -> Observe.marked (fst (run JSON_stringify s evs))).
  { induction evs as [|ev evs IH]; intros s Hs; [exact Hs|].
    rewrite (run_cons JSON_stringify). simpl. apply IH, step_marked, Hs. }
  apply H. constructor.
Qed.

(** X19. The call that starts a refresh is replayed at most once. In every
    state the module can reach, the request of every handler that waits
    for the refresh endpoint carries the [_retry] mark. When the refresh
    succeeds, that request is the first one sent again, with the new
    token and still marked; and however a marked request fails later,
    with or without a response, in whatever state, the failure goes to
    its caller: nothing is sent again, no refresh is requested, no call
    is queued and the module is as it was. *)
Theorem refresh_initiator_is_replayed_once (st : State) (now : Z) (k : nat)
  (data : RefreshData) (r : Request) :
  Spec.reachable JSON_stringify st -> awaiting st !! k = Some r ->
  let replay := set_Authorization ("Bearer " +:+ access_token data) r in
  _retry r = true
  /\ hd_error (Spec.sends (snd (onRefreshSettled JSON_stringify now k
                                  (Fulfilled (Some data)) st))) = Some replay
  /\ _retry replay = true
  /\ forall (now' : Z) (error : AxiosError) (st2 : State),
       config error = replay ->
       let s := step JSON_stringify st2 (ResponseError now' error) in
       fst s = st2
       /\ Observe.rethrown (snd s) = [(replay, AxiosExn error)]
       /\ Spec.sends (snd s) = [] /\ Spec.refresh_posts (snd s) = []
       /\ Spec.pushed (snd s) = [].
Proof.
  intros Hreach Hk. cbv zeta.
  assert (Hmark : _retry r = true).
  { apply reachable_marked in Hreach. unfold Observe.marked in Hreach.
    exact (Forall_lookup_1 _ _ _ _ Hreach Hk). }
  split; [exact Hmark|]. split.
  { rewrite (onRefreshSettled_unfold JSON_stringify now k _ st r Hk). cbv zeta.
    rewrite sends_succeeded. reflexivity. }
  split; [exact Hmark|].
  intros now' error st2 Hconfig.
  assert (Hterm : Observe.terminal (ResponseError now' error) = true).
  { simpl. rewrite Hconfig. simpl. rewrite Hmark.
    destruct (response error); [rewrite andb_false_r|]; reflexivity. }
  destruct (terminal_step st2 _ Hterm) as (H1 & H2 & H3 & H4 & H5 & _).
  simpl in H2. rewrite Hconfig in H2. auto.
Qed.

(** ** Starting a refresh *)

(** X20. A call that is not marked fails with 401 while no refresh is in
    flight. With a non-empty token in the store, expired or not, the
    handler requests a refresh with that token as the bearer, once, and
    waits for it with the request marked; nothing is reported to the
    caller yet. With no token, or an empty one, no request leaves: the
    handler removes both entries of the store, publishes [auth:logout]
    and [api:error], clears the flag it had just set and reports
    [No token available] to the caller. *)
Theorem refresh_needs_stored_token (now : Z) (error : AxiosError) (st : State) :
  Spec.reachable JSON_stringify st -> isRefreshing st = false ->
  response error = Some {| status := 401 |} -> _retry (config error) = false ->
  let s := step JSON_stringify st (ResponseError now error) in
  let request := set_retry true (config error) in
  (forall tok, localStorage st !! "token" = Some tok -> tok <> "" ->
     snd s = [SetRefreshing true; RefreshPost ("Bearer " +:+ tok)]
     /\ isRefreshing (fst s) = true /\ awaiting (fst s) = [request]
     /\ failedQueue (fst s) = [] /\ localStorage (fst s) = localStorage st)
  /\ (truthy (localStorage st !! "token") = false ->
      snd s = [SetRefreshing true; RemoveItem "token"; RemoveItem "user";
               DispatchEvent "auth:logout" None;
               DispatchEvent "api:error" (Some "Authentication failed");
               SetRefreshing false; Rethrow request (ErrorExn "No token available")]
      /\ isRefreshing (fst s) = false /\ awaiting (fst s) = []
      /\ failedQueue (fst s) = []
      /\ localStorage (fst s) !! "token" = None
      /\ localStorage (fst s) !! "user" = None).
Proof.
  intros Hreach Hflag Hresp Hretry. cbv zeta.
  apply reachable_single_flight in Hreach.
  destruct Hreach as [[Hf _]|(_ & Haw & Hq)]; [congruence|].
  simpl. unfold onRejected. rewrite Hresp, Hretry, Hflag.
  change ((status {| status := 401 |} =? 401)%Z && negb false) with true. cbv iota.
  split.
  - intros tok Htok Hne. rewrite Htok. simpl.
    apply String.eqb_neq in Hne. rewrite Hne. simpl. rewrite Haw, Hq. auto.
  - intros Hnone. rewrite Hnone.
    match goal with
    | |- context [refresh_failed ?n ?r ?e ?s] =>
        destruct (refresh_failed_spec n r e s) as (H0 & H1 & H2 & H3 & H4 & H5);
        destruct (refresh_failed n r e s) as [st2 effs]
    end.
    simpl in *. rewrite Hq in H0. simpl in H0. rewrite H0, H3, Haw. auto 10.
Qed.

(** ** After a refresh *)

(** X21. A refresh that succeeds leaves the new token and the new user in the
    store. Every request the handler sends again carries the new token,
    put there by the handler itself whether or not the token can be
    decoded. A request issued afterwards gets the new token from the
    request interceptor exactly as long as the token is not empty and
    not expired; once it is expired, or when it cannot be decoded, the
    request leaves as it was built. *)
Theorem refreshed_token_is_attached (now now' : Z) (k : nat) (data : RefreshData)
  (st : State) (r config : Request) :
  awaiting st !! k = Some r ->
  let s := onRefreshSettled JSON_stringify now k (Fulfilled (Some data)) st in
  let bearer := "Bearer " +:+ access_token data in
  localStorage (fst s) !! "token" = Some (access_token data)
  /\ localStorage (fst s) !! "user" = Some (JSON_stringify (user data))
  /\ Forall (fun q => Authorization q = Some bearer) (Spec.sends (snd s))
  /\ (access_token data <> "" -> isTokenExpired now' (access_token data) = false ->
      requestInterceptor now' (localStorage (fst s)) config
      = set_Authorization bearer config)
  /\ (isTokenExpired now' (access_token data) = true ->
      requestInterceptor now' (localStorage (fst s)) config = config)
  /\ (Spec.exp_claim (access_token data) = None ->
      requestInterceptor now' (localStorage (fst s)) config = config).
Proof.
  intros Hk. cbv zeta.
  rewrite (onRefreshSettled_unfold JSON_stringify now k _ st r Hk). cbv zeta.
  rewrite sends_succeeded.
  match goal with
  | |- context [refresh_succeeded _ ?n ?r ?d ?s] =>
      destruct (refresh_succeeded_spec JSON_stringify n r d s) as (_ & _ & _ & _ & Htok);
      assert (Husr : localStorage (fst (refresh_succeeded JSON_stringify n r d s)) !! "user"
                     = Some (JSON_stringify (user d))) by apply lookup_insert_eq;
      set (st' := fst (refresh_succeeded JSON_stringify n r d s)) in *
  end.
  assert (Hexpired : isTokenExpired now' (access_token data) = true ->
            requestInterceptor now' (localStorage st') config = config).
  { intros H. unfold requestInterceptor. rewrite Htok. simpl default. rewrite H.
    rewrite andb_false_r. reflexivity. }
  split; [exact Htok|]. split; [exact Husr|].
  split.
  { apply Forall_map. apply Forall_forall. intros q _. reflexivity. }
  split.
  { intros Hne Hvalid. unfold requestInterceptor. rewrite Htok. simpl.
    apply String.eqb_neq in Hne. rewrite Hne, Hvalid. reflexivity. }
  split; [exact Hexpired|].
  intros Hexp. apply Hexpired. apply (undecodable_is_expired now' _ Hexp).
Qed.

End Interceptors.

(** ** The request interceptor *)

(** X22. The request interceptor changes nothing of a request but its
    [Authorization] header, and sets that header only to the bearer of
    the stored token, and only when the token is not empty and not
    expired. It does so whenever that is the case, also over a header
    the request already had. It never removes a header: with an expired
    or undecodable token in the store the request keeps the header it
    came with. Applying it twice is applying it once. *)
Theorem requestInterceptor_attaches_only_valid_token (now : Z)
  (ls : gmap string string) (config : Request) :
  let config' := requestInterceptor now ls config in
  url config' = url config /\ _retry config' = _retry config
  /\ (config' = config
      \/ exists tok, ls !! "token" = Some tok /\ tok <> ""
                     /\ isTokenExpired now tok = false
                     /\ config' = set_Authorization ("Bearer " +:+ tok) config)
  /\ (forall tok, ls !! "token" = Some tok -> tok <> "" ->
        isTokenExpired now tok = false ->
        Authorization config' = Some ("Bearer " +:+ tok))
  /\ (forall tok, ls !! "token" = Some tok -> Spec.exp_claim tok = None ->
        config' = config)
  /\ (ls !! "token" = None -> config' = config)
  /\ requestInterceptor now ls config' = config'.
Proof.
  cbv zeta. unfold requestInterceptor.
  destruct (ls !! "token") as [tok|] eqn:Htok; simpl.
  2:{ split; [reflexivity|]. split; [reflexivity|]. split; [left; reflexivity|].
      split; [discriminate|]. split; [discriminate|]. split; reflexivity. }
  destruct (String.eqb tok "") eqn:Hempty; simpl.
  { apply String.eqb_eq in Hempty. subst tok.
    split; [reflexivity|]. split; [reflexivity|]. split; [left; reflexivity|].
    split; [intros tok H; injection H as <-; congruence|].
    split; [reflexivity|]. split; [discriminate | reflexivity]. }
  apply String.eqb_neq in Hempty.
  destruct (isTokenExpired now tok) eqn:Hexpired; simpl.
  - split; [reflexivity|]. split; [reflexivity|]. split; [left; reflexivity|].
    split; [intros t H; injection H as <-; congruence|].
    split; [reflexivity|]. split; [discriminate|].
    reflexivity.
  - split; [reflexivity|]. split; [reflexivity|].
    split; [right; exists tok; auto|].
    split; [intros t H; injection H as <-; reflexivity|].
    split.
    { intros t H Hexp. injection H as <-.
      destruct (undecodable_is_expired now tok Hexp) as [H _]. congruence. }
    split; [discriminate|].
    reflexivity.
Qed.

(** ** Concrete runs *)

Lemma terminal_failures_pass_through_witness :
  let evs := [ResponseError Examples.now Examples.network_down;
              ResponseError Examples.now (Spec.http_error 500 Examples.callB);
              ResponseError Examples.now
                (Examples.unauthorized (Examples.replayed true Examples.callA))] in
  let r := run Examples.stringify (initial Examples.stale_store) evs in
  fst r = initial Examples.stale_store
  /\ map fst (Observe.rethrown (snd r))
     = [Examples.callA; Examples.callB; Examples.replayed true Examples.callA]
  /\ Spec.refresh_posts (snd r) = [].
Proof.
  intros evs r.
  destruct (terminal_failures_pass_through Examples.stringify
              (initial Examples.stale_store) evs eq_refl)
    as (Hst & Hre & _ & Hposts & _).
  split; [exact Hst|]. split; [|exact Hposts].
  fold r in Hre. rewrite Hre. reflexivity.
Defined.

Lemma interceptor_writes_only_credentials_witness :
  let ls := <["theme" := "dark"]> Examples.stale_store in
  localStorage (fst (run Examples.stringify (initial ls) Examples.queued_call_fails_again))
    !! "theme" = Some "dark".
Proof.
  intros ls.
  destruct (interceptor_writes_only_credentials Examples.stringify (initial ls)
              Examples.queued_call_fails_again "theme" eq_refl) as [_ Hkept].
  rewrite Hkept; [reflexivity | discriminate | discriminate].
Defined.

Lemma refresh_initiator_is_replayed_once_witness :
  let st := fst (run Examples.stringify (initial Examples.stale_store)
                   [ResponseError Examples.now (Examples.unauthorized Examples.callA)]) in
  let replay := Examples.replayed true Examples.callA in
  hd_error (Spec.sends (snd (onRefreshSettled Examples.stringify Examples.now 0
                               (Fulfilled (Some Examples.fresh)) st))) = Some replay
  /\ Spec.refresh_posts
       (snd (step Examples.stringify (initial Examples.stale_store)
               (ResponseError Examples.now (Examples.unauthorized replay)))) = [].
Proof.
  intros st replay.
  assert (Hreach : Spec.reachable Examples.stringify st).
  { exists Examples.stale_store,
      [ResponseError Examples.now (Examples.unauthorized Examples.callA)].
    reflexivity. }
  destruct (refresh_initiator_is_replayed_once Examples.stringify st Examples.now 0
              Examples.fresh (set_retry true Examples.callA) Hreach eq_refl)
    as (_ & Hfirst & _ & Hterminal).
  split; [exact Hfirst|].
  destruct (Hterminal Examples.now (Examples.unauthorized replay)
              (initial Examples.stale_store) eq_refl) as (_ & _ & _ & Hposts & _).
  exact Hposts.
Defined.

Lemma refresh_needs_stored_token_witness :
  snd (step Examples.stringify (initial ∅)
         (ResponseError Examples.now (Examples.unauthorized Examples.callA)))
  = [SetRefreshing true; RemoveItem "token"; RemoveItem "user";
     DispatchEvent "auth:logout" None;
     DispatchEvent "api:error" (Some "Authentication failed");
     SetRefreshing false;
     Rethrow (set_retry true Examples.callA) (ErrorExn "No token available")].
Proof.
  assert (Hreach : Spec.reachable Examples.stringify (initial ∅)).
  { exists ∅, []. reflexivity. }
  destruct (refresh_needs_stored_token Examples.stringify Examples.now
              (Examples.unauthorized Examples.callA) (initial ∅) Hreach
              eq_refl eq_refl eq_refl) as [_ Hnone].
  destruct (Hnone eq_refl) as [Heffs _]. exact Heffs.
Defined.

Lemma refreshed_token_is_attached_witness :
  let st := fst (run Examples.stringify (initial Examples.stale_store)
                   [ResponseError Examples.now (Examples.unauthorized Examples.callA)]) in
  let st' := fst (onRefreshSettled Examples.stringify Examples.now 0
                    (Fulfilled (Some Examples.fresh)) st) in
  localStorage st' !! "token" = Some Examples.token_exp_plus_3600
  /\ requestInterceptor Examples.now (localStorage st') Examples.callB
     = Examples.replayed false Examples.callB.
Proof.
  intros st st'.
  destruct (refreshed_token_is_attached Examples.stringify Examples.now Examples.now 0
              Examples.fresh st (set_retry true Examples.callA) Examples.callB eq_refl)
    as (Htok & _ & _ & Hattach & _).
  split; [exact Htok|].
  apply Hattach; [discriminate | vm_compute; reflexivity].
Defined.

End ApiMore.

(* ===================================================================== *)
(** * The promise of a queued call, and the cascade to the provider *)
(* ===================================================================== *)

Module CascadeMore.
Import JS Axios Api ExpiryFacts CoordinatorFacts.

Section Cascade.

Variable JSON_stringify : JsValue -> string.

(** X23. The promise a queued call returns. Its first effects are the
    reaction to the settlement of its entry. It is rejected exactly when
    the entry was rejected or the replay was, with that same error, and
    then the chain publishes one [api:error] with the context
    [Token refresh failed], also when the refresh had succeeded and it is
    the replay that failed. Such a failure of the replay is published
    twice: once by the response interceptor that handled it, once by
    the chain. *)
Theorem queued_replay_failure_is_reported_twice (now : Z) (ls : gmap string string)
  (r : Request) (settlement : QueuedCall.Settlement) (replay : QueuedCall.Replay) :
  let c := QueuedCall.queued_call now ls r settlement replay in
  (exists rest, fst c = queued_reaction now ls (QueuedCall.settles r settlement) ++ rest)
  /\ (forall e, snd c = QueuedCall.CallRejected e <->
        settlement = QueuedCall.RejectedWith e
        \/ ((exists token, settlement = QueuedCall.Resolved token)
            /\ replay = QueuedCall.ReplayRejected e))
  /\ (forall e, snd c = QueuedCall.CallRejected e ->
        Observe.dispatched "api:error" (fst c) = [Some "Token refresh failed"]
        /\ Observe.rethrown (fst c) = [(r, e)])
  /\ (snd c = QueuedCall.CallFulfilled ->
      Observe.dispatched "api:error" (fst c) = [] /\ Observe.rethrown (fst c) = [])
  /\ (forall (now' : Z) (error : AxiosError) (st : State) (token : option string),
        settlement = QueuedCall.Resolved token ->
        replay = QueuedCall.ReplayRejected (AxiosExn error) ->
        Observe.terminal (ResponseError now' error) = true ->
        let handled := snd (step JSON_stringify st (ResponseError now' error)) in
        length (Observe.dispatched "api:error" handled) = 1
        /\ length (Observe.dispatched "api:error" (handled ++ fst c)) = 2
        /\ Observe.rethrown (handled ++ fst c)
           = [(config error, AxiosExn error); (r, AxiosExn error)]).
Proof.
  cbv zeta. unfold QueuedCall.queued_call.
  destruct settlement as [token|err]; destruct replay as [|err']; simpl.
  - split; [exists []; reflexivity|].
    split; [intros e; split; [discriminate | intros [H|[_ H]]; discriminate]|].
    split; [discriminate|]. split; [auto|]. discriminate.
  - split; [eexists; reflexivity|].
    split.
    { intros e. split.
      - intros H. injection H as <-. right. eauto.
      - intros [H|[_ H]]; [discriminate | injection H as <-; reflexivity]. }
    split; [intros e H; injection H as <-; auto|].
    split; [discriminate|].
    intros now' error st token' _ Hreplay Hterm. injection Hreplay as ->.
    unfold onRejected. simpl in Hterm.
    destruct (response error) as [resp|]; [|simpl; auto].
    apply negb_true_iff in Hterm. rewrite Hterm. simpl. auto.
  - split; [exists []; reflexivity|].
    split.
    { intros e. split.
      - intros H. injection H as <-. left. reflexivity.
      - intros [H|[[t H] _]]; [injection H as <-; reflexivity | discriminate]. }
    split; [intros e H; injection H as <-; auto|].
    split; [discriminate|]. discriminate.
  - split; [exists []; reflexivity|].
    split.
    { intros e. split.
      - intros H. injection H as <-. left. reflexivity.
      - intros [H|[[t H] _]]; [injection H as <-; reflexivity | discriminate]. }
    split; [intros e H; injection H as <-; auto|].
    split; [discriminate|]. discriminate.
Qed.

(** X24. The cascade from the interceptor to the provider. A refresh
    that fails publishes [auth:logout] once and removes both entries of
    the store. When the provider's listener then runs
    [logout()] over that store, nobody is signed in at any clock, the
    store is left exactly as the interceptor left it, and the request
    interceptor attaches nothing to the requests that follow. *)
Theorem cascaded_logout (now : Z) (k : nat) (e : AxiosError) (st : State) (r : Request)
  (p : AuthContext.State) :
  awaiting st !! k = Some r ->
  let s := onRefreshSettled JSON_stringify now k (Rejected e) st in
  AuthContext.localStorage p = localStorage (fst s) ->
  let p' := fst (AuthContext.logout p) in
  Observe.dispatched "auth:logout" (snd s) = [None]
  /\ Observe.written (snd s) = ["token"; "user"]
  /\ Observe.anonymous p'
  /\ AuthContext.localStorage p' = localStorage (fst s)
  /\ (forall now', AuthContext.isAuthenticated now' p' = false)
  /\ In (AuthContext.Navigate "/login") (snd (AuthContext.logout p))
  /\ (forall now' config,
        requestInterceptor now' (AuthContext.localStorage p') config = config).
Proof.
  intros Hk. cbv zeta.
  rewrite (onRefreshSettled_unfold JSON_stringify now k _ st r Hk). cbv zeta.
  match goal with
  | |- context [refresh_failed ?n ?r ?e ?s] =>
      destruct (refresh_failed_spec n r e s) as (Heffs & _ & _ & _ & Htok & Husr);
      destruct (ApiMore.failed_effects n r e s) as (_ & _ & _ & _ & Hwritten);
      set (res := refresh_failed n r e s) in *
  end.
  cbv zeta in *. intros Hshared.
  assert (Hlogout : Observe.dispatched "auth:logout" (snd res) = [None]).
  { rewrite Heffs. unfold Observe.dispatched. rewrite !flat_map_app. simpl.
    rewrite flat_map_no_effect by reflexivity.
    rewrite flat_map_no_effect2 by reflexivity. reflexivity. }
  assert (Hstore : AuthContext.localStorage (fst (AuthContext.logout p))
                   = localStorage (fst res)).
  { unfold AuthContext.logout.
    destruct (AuthContext.refreshTimeoutRef p); simpl; rewrite Hshared;
      rewrite (delete_id (localStorage (fst res)) "token" Htok);
      apply delete_id, Husr. }
  split; [exact Hlogout|]. split; [exact Hwritten|].
  split; [unfold Observe.anonymous, AuthContext.logout;
          destruct (AuthContext.refreshTimeoutRef p); simpl; auto|].
  split; [exact Hstore|].
  split; [intros now'; unfold AuthContext.isAuthenticated, AuthContext.logout;
          destruct (AuthContext.refreshTimeoutRef p); reflexivity|].
  split; [unfold AuthContext.logout; destruct (AuthContext.refreshTimeoutRef p);
          simpl; auto|].
  intros now' config. unfold requestInterceptor. rewrite Hstore, Htok. reflexivity.
Qed.

End Cascade.

Lemma cascaded_logout_witness :
  let st := fst (run Examples.stringify (initial Examples.stale_store)
                   [ResponseError Examples.now (Examples.unauthorized Examples.callA)]) in
  let s := onRefreshSettled Examples.stringify Examples.now 0
             (Rejected (Spec.http_error 500 Examples.callA)) st in
  let p := AuthContext.set_storage (localStorage (fst s)) (AuthContext.mounted ∅) in
  Observe.dispatched "auth:logout" (snd s) = [None]
  /\ AuthContext.localStorage (fst (AuthContext.logout p)) = localStorage (fst s).
Proof.
  intros st s p.
  destruct (cascaded_logout Examples.stringify Examples.now 0
              (Spec.http_error 500 Examples.callA) st (set_retry true Examples.callA) p
              eq_refl eq_refl) as (Hevent & _ & _ & Hstore & _).
  split; [exact Hevent | exact Hstore].
Defined.

End CascadeMore.
